(** * Order and inventory reservation engine (main.go): model and properties

    The handlers CreateOrder, CancelOrder and CheckAndExpireOrders, with the
    helpers they call, are embedded as functions on an explicit store.  The
    store is the set of MySQL tables the handlers touch; every SQL statement
    of the source is one function on the store, and every place where the
    source tests [err != nil] is a place where the model asks a fault
    predicate whether that statement failed.  Two statements fail whatever
    the store answers, and the model derives that from the source: a
    [rows.Scan] given fewer destinations than the query selects columns, and
    a statement whose [IN (...)] list does not parse. *)

From stdpp Require Import gmap list strings.
From Stdlib Require Import ZArith Lia Ascii.

Local Open Scope Z_scope.

(** ** Rows *)

(** [OrderItemModel] of models.go.  The auto-increment [ID] of a row is never
    read by the engine and is left out. *)
Record OrderItemModel := mkOrderItem {
  OrderID : Z;
  ProductID : Z;
  ProductVariantID : option Z;
  Quantity : Z;
  PriceAtPurchase : Z;
  TotalPrice : Z
}.

(** [CartItemModel]: the columns CreateOrder selects, and [cart_id]. *)
Record CartItemModel := mkCartItem {
  ci_CartID : Z;
  ci_ProductID : Z;
  ci_ProductVariantID : option Z;
  ci_Quantity : Z;
  ci_PricePerItem : Z;
  ci_TotalPrice : Z
}.

(** [OrderModel]; times are nanoseconds, as [time.Duration] counts them. *)
Record OrderModel := mkOrder {
  o_ID : Z;
  o_UserID : Z;
  o_CartUserID : option Z;
  o_Status : string;
  o_TotalPrice : Z;
  o_TimerExpiration : Z;
  o_CreatedAt : Z;
  o_UpdatedAt : Z
}.

(** [TempStockReservationModel]. *)
Record TempStockReservationModel := mkReservation {
  r_ID : Z;
  r_UserID : Z;
  r_OrderID : Z;
  r_ReservedAt : Z;
  r_ExpiredAt : Z
}.

(** [TempStockDetailModel]. *)
Record TempStockDetailModel := mkDetail {
  d_TempReservationID : Z;
  d_ProductID : Z;
  d_ProductVariantID : option Z;
  d_Quantity : Z
}.

(** ** The store

    [products] and [product_variants] map a primary key to the [stock]
    column; a row whose stock is NULL behaves, for every statement below, as
    an absent row ([NULL >= q] is not true and [NULL + q] is NULL).  [users]
    maps a user id to the credit column; the schema is not part of the
    sources, CreateOrder reads the column as [heart] and CheckAndExpireOrders
    writes it as [hearts], and the model keeps one column for both.  [carts]
    maps a cart id to [total_price].  The two counters are the AUTO_INCREMENT
    values that [LastInsertId] reports. *)
Record DB := mkDB {
  products : gmap Z Z;
  product_variants : gmap Z Z;
  users : gmap Z Z;
  carts : gmap Z Z;
  cart_items : list CartItemModel;
  orders : list OrderModel;
  order_items : list OrderItemModel;
  temp_stock_reservations : list TempStockReservationModel;
  temp_stock_details : list TempStockDetailModel;
  next_order_id : Z;
  next_reservation_id : Z
}.

Definition set_products (f : gmap Z Z → gmap Z Z) (s : DB) : DB :=
  mkDB (f (products s)) (product_variants s) (users s) (carts s) (cart_items s)
       (orders s) (order_items s) (temp_stock_reservations s)
       (temp_stock_details s) (next_order_id s) (next_reservation_id s).

Definition set_product_variants (f : gmap Z Z → gmap Z Z) (s : DB) : DB :=
  mkDB (products s) (f (product_variants s)) (users s) (carts s) (cart_items s)
       (orders s) (order_items s) (temp_stock_reservations s)
       (temp_stock_details s) (next_order_id s) (next_reservation_id s).

Definition set_users (f : gmap Z Z → gmap Z Z) (s : DB) : DB :=
  mkDB (products s) (product_variants s) (f (users s)) (carts s) (cart_items s)
       (orders s) (order_items s) (temp_stock_reservations s)
       (temp_stock_details s) (next_order_id s) (next_reservation_id s).

Definition set_carts (f : gmap Z Z → gmap Z Z) (s : DB) : DB :=
  mkDB (products s) (product_variants s) (users s) (f (carts s)) (cart_items s)
       (orders s) (order_items s) (temp_stock_reservations s)
       (temp_stock_details s) (next_order_id s) (next_reservation_id s).

Definition set_cart_items (f : list CartItemModel → list CartItemModel) (s : DB) : DB :=
  mkDB (products s) (product_variants s) (users s) (carts s) (f (cart_items s))
       (orders s) (order_items s) (temp_stock_reservations s)
       (temp_stock_details s) (next_order_id s) (next_reservation_id s).

Definition set_orders (f : list OrderModel → list OrderModel) (s : DB) : DB :=
  mkDB (products s) (product_variants s) (users s) (carts s) (cart_items s)
       (f (orders s)) (order_items s) (temp_stock_reservations s)
       (temp_stock_details s) (next_order_id s) (next_reservation_id s).

Definition set_order_items (f : list OrderItemModel → list OrderItemModel) (s : DB) : DB :=
  mkDB (products s) (product_variants s) (users s) (carts s) (cart_items s)
       (orders s) (f (order_items s)) (temp_stock_reservations s)
       (temp_stock_details s) (next_order_id s) (next_reservation_id s).

Definition set_reservations
    (f : list TempStockReservationModel → list TempStockReservationModel) (s : DB) : DB :=
  mkDB (products s) (product_variants s) (users s) (carts s) (cart_items s)
       (orders s) (order_items s) (f (temp_stock_reservations s))
       (temp_stock_details s) (next_order_id s) (next_reservation_id s).

Definition set_details
    (f : list TempStockDetailModel → list TempStockDetailModel) (s : DB) : DB :=
  mkDB (products s) (product_variants s) (users s) (carts s) (cart_items s)
       (orders s) (order_items s) (temp_stock_reservations s)
       (f (temp_stock_details s)) (next_order_id s) (next_reservation_id s).

Definition bump_order_id (s : DB) : DB :=
  mkDB (products s) (product_variants s) (users s) (carts s) (cart_items s)
       (orders s) (order_items s) (temp_stock_reservations s)
       (temp_stock_details s) (next_order_id s + 1) (next_reservation_id s).

Definition bump_reservation_id (s : DB) : DB :=
  mkDB (products s) (product_variants s) (users s) (carts s) (cart_items s)
       (orders s) (order_items s) (temp_stock_reservations s)
       (temp_stock_details s) (next_order_id s) (next_reservation_id s + 1).

(** [tx.Rollback()]: every table is as it was at [db.Begin()]; InnoDB does
    not give back AUTO_INCREMENT values a rolled-back transaction used. *)
Definition rollback (s0 s : DB) : DB :=
  mkDB (products s0) (product_variants s0) (users s0) (carts s0) (cart_items s0)
       (orders s0) (order_items s0) (temp_stock_reservations s0)
       (temp_stock_details s0) (next_order_id s) (next_reservation_id s).

(** Two stores hold the same rows. *)
Definition same_tables (a b : DB) : Prop :=
  products a = products b ∧ product_variants a = product_variants b ∧
  users a = users b ∧ carts a = carts b ∧ cart_items a = cart_items b ∧
  orders a = orders b ∧ order_items a = order_items b ∧
  temp_stock_reservations a = temp_stock_reservations b ∧
  temp_stock_details a = temp_stock_details b.

(** A stock-keeping unit: a plain product or a product variant. *)
Inductive SKU :=
| PlainProduct (productID : Z)
| Variant (variantID : Z).

(** The SKU a line names: the variant when [ProductVariantID != nil]. *)
Definition sku_of (productID : Z) (variantID : option Z) : SKU :=
  match variantID with
  | Some v => Variant v
  | None => PlainProduct productID
  end.

Definition stock_of (k : SKU) (s : DB) : option Z :=
  match k with
  | PlainProduct p => products s !! p
  | Variant v => product_variants s !! v
  end.

(** ** Store faults

    One label per statement of the source whose error the handler inspects
    (or discards).  [fails l = true] means the driver returned an error for
    that statement and the statement changed nothing.  Indices are loop
    positions.  A [rows.Scan] is a fault point as well: the conversion of a
    column into its destination is the driver's answer, not the handler's. *)
Inductive stmt :=
(* CreateOrder *)
| SelCart | SelCartItems | ScanCartItem (k : nat) | SelHeart | BeginCreate
| InsOrder | InsOrderItem (k : nat) | InsReservation | InsDetail (k : nat)
| DecStock (k : nat) | DelCartItems | ZeroCartTotal | CommitCreate
(* CancelOrder and GetOrderItems *)
| SelOrder | SelOrderItems | ScanOrderItem (k : nat) | OrderItemsErr
| BeginCancel | UpdCanceled | DelDetailsTx | DelReservationTx
| IncStock (k : nat) | CommitCancel
(* CheckAndExpireOrders *)
| SelExpired | ScanExpired (i : nat) | ExpiredErr
| UpdExpired (i : nat) | DecHearts (i : nat)
(* DeleteStockReservationAndReturn, called for the i-th expired order *)
| BeginRevert (i : nat) | SelRevertDetails (i : nat)
| ScanRevertDetail (i : nat) (k : nat) | DelRevertDetails (i : nat)
| DelRevertReservation (i : nat) | IncRevertStock (i : nat) (k : nat)
| CommitRevert (i : nat).

Definition no_fault : stmt → bool := λ _, false.

(** The [for rows.Next() { rows.Scan(...) }] loops: the k-th row is scanned
    into a value, and a scan error ends the handler. *)
Fixpoint scan_rows {A B : Type} (fails : stmt → bool) (lbl : nat → stmt)
    (f : A → B) (k : nat) (rows : list A) : option (list B) :=
  match rows with
  | [] => Some []
  | row :: rest =>
      if fails (lbl k) then None
      else cons (f row) <$> scan_rows fails lbl f (S k) rest
  end.

(** [Rows.Scan(dest...)] of database/sql checks the number of destinations
    before it converts anything: unless there are as many destinations as
    selected columns it returns "sql: expected %d destination arguments in
    Scan, not %d".  [scan_error fails columns dests] is the fault oracle of a
    scan loop whose query selects [columns] columns and whose Scan is given
    [dests] destinations.  Every scan of the engine but the one of
    CheckAndExpireOrders passes as many destinations as it selects columns,
    and is written with [fails] alone. *)
Definition scan_error (fails : stmt → bool) (columns dests : nat) (l : stmt) : bool :=
  fails l || negb (Nat.eqb columns dests).

(** ** Statements of the inventory ledger *)

(** [SET stock = stock - q WHERE ... AND stock >= q] on one row. *)
Definition dec_if_enough (q stock : Z) : Z :=
  if decide (q ≤ stock) then stock - q else stock.

(** [UPDATE product_variants|products SET stock = stock - ? WHERE id = ? AND
    stock >= ?].  The statement succeeds whether or not a row matched. *)
Definition decrement_stock (productID : Z) (variantID : option Z) (q : Z) (s : DB) : DB :=
  match variantID with
  | Some v => set_product_variants (alter (dec_if_enough q) v) s
  | None => set_products (alter (dec_if_enough q) productID) s
  end.

(** [UPDATE product_variants|products SET stock = stock + ? WHERE id = ?]. *)
Definition increment_stock (productID : Z) (variantID : option Z) (q : Z) (s : DB) : DB :=
  match variantID with
  | Some v => set_product_variants (alter (λ st, st + q) v) s
  | None => set_products (alter (λ st, st + q) productID) s
  end.

(** ** Order creation *)

(** The [temp_stock_details] row inserted for an item. *)
Definition detail_of (tempResID : Z) (item : OrderItemModel) : TempStockDetailModel :=
  mkDetail tempResID (ProductID item) (ProductVariantID item) (Quantity item).

(** The loop of CreateStockReservationTx: for the k-th item, insert the
    detail row, then run the conditional decrement.  Only a driver error
    stops the loop; the number of rows the UPDATE changed is not looked at. *)
Fixpoint reserve_items (fails : stmt → bool) (tempResID : Z) (k : nat)
    (items : list OrderItemModel) (s : DB) : bool * DB :=
  match items with
  | [] => (true, s)
  | item :: rest =>
      if fails (InsDetail k) then (false, s) else
      let s1 := set_details (λ t, t ++ [detail_of tempResID item]) s in
      if fails (DecStock k) then (false, s1) else
      let s2 := decrement_stock (ProductID item) (ProductVariantID item)
                                (Quantity item) s1 in
      reserve_items fails tempResID (S k) rest s2
  end.

(** [CreateStockReservationTx(tx, orderID, userID, items)]; [now] is the
    helper's own [time.Now()].  The header row gets [now] in both
    [reserved_at] and [expired_at]. *)
Definition CreateStockReservationTx (fails : stmt → bool) (now : Z)
    (orderID userID : Z) (items : list OrderItemModel) (s : DB) : bool * DB :=
  if fails InsReservation then (false, s) else
  let tempResID := next_reservation_id s in
  let s1 := bump_reservation_id
    (set_reservations (λ t, t ++ [mkReservation tempResID userID orderID now now]) s) in
  reserve_items fails tempResID 0 items s1.

(** [time.Hour], in nanoseconds. *)
Definition Hour : Z := 3600 * 1000000000.

(** The [switch heartCount] of CreateOrder. *)
Definition duration_of (heartCount : Z) : Z :=
  if decide (heartCount = 3) then 24 * Hour
  else if decide (heartCount = 2) then 12 * Hour
  else if decide (heartCount = 1) then 6 * Hour
  else 6 * Hour.

(** The [switch hearts] of the helper CreateStockReservation (no caller in
    main.go), which refuses a balance outside the table. *)
Definition CreateStockReservation_expiry (now hearts : Z) : option Z :=
  if decide (hearts = 3) then Some (now + 24 * Hour)
  else if decide (hearts = 2) then Some (now + 12 * Hour)
  else if decide (hearts = 1) then Some (now + 6 * Hour)
  else None.

(** The rows CreateOrder scans from [cart_items] into [[]OrderItemModel]. *)
Definition item_of_cart (ci : CartItemModel) : OrderItemModel :=
  mkOrderItem 0 (ci_ProductID ci) (ci_ProductVariantID ci) (ci_Quantity ci)
              (ci_PricePerItem ci) (ci_TotalPrice ci).

(** [SELECT ... FROM cart_items WHERE cart_id = ?]. *)
Definition cart_rows (userID : Z) (s : DB) : list CartItemModel :=
  filter (λ ci, ci_CartID ci = userID) (cart_items s).

(** The [order_items] row inserted for an item. *)
Definition order_item_of (orderID : Z) (item : OrderItemModel) : OrderItemModel :=
  mkOrderItem orderID (ProductID item) (ProductVariantID item) (Quantity item)
              (PriceAtPurchase item) (TotalPrice item).

(** The loop that inserts one [order_items] row per item. *)
Fixpoint insert_order_items (fails : stmt → bool) (orderID : Z) (k : nat)
    (items : list OrderItemModel) (s : DB) : bool * DB :=
  match items with
  | [] => (true, s)
  | item :: rest =>
      if fails (InsOrderItem k) then (false, s) else
      insert_order_items fails orderID (S k) rest
        (set_order_items (λ t, t ++ [order_item_of orderID item]) s)
  end.

(** What CreateOrder answers: one constructor per [c.JSON] call. *)
Inductive CreateOrderResp :=
| CartNotFound            (* 400 "Cart tidak ditemukan" *)
| CartItemsFailed         (* 500 "Gagal mengambil cart items" *)
| CartItemScanFailed      (* 500 "Gagal membaca cart item" *)
| CartEmpty               (* 400 "Cart kosong, tidak bisa membuat order" *)
| HeartLookupFailed       (* 500 "Gagal mengambil jumlah hati" *)
| BeginFailed             (* 500 "Gagal memulai transaksi" *)
| OrderInsertFailed       (* 500 "Gagal membuat order" *)
| OrderItemInsertFailed   (* 500 "Gagal menyimpan order item" *)
| StockReservationFailed  (* 500 "Gagal melakukan reservasi stok" *)
| CommitFailed            (* 500 "Gagal menyelesaikan order" *)
| OrderCreated (order_id : Z) (expired_at : Z).   (* 200 *)

(** The two cart statements after the reservation; both errors are
    discarded ([_, _ = tx.Exec(...)]). *)
Definition clear_cart (fails : stmt → bool) (userID : Z) (s : DB) : DB :=
  let s1 := if fails DelCartItems then s
            else set_cart_items (filter (λ ci, ci_CartID ci ≠ userID)) s in
  if fails ZeroCartTotal then s1
  else set_carts (alter (λ _, 0) userID) s1.

(** [CreateOrder]: [userID] is the authenticated caller, [now] the handler's
    [time.Now()], [resNow] the one CreateStockReservationTx takes later. *)
Definition CreateOrder (fails : stmt → bool) (userID now resNow : Z) (s : DB)
    : CreateOrderResp * DB :=
  if fails SelCart then (CartNotFound, s) else
  match carts s !! userID with
  | None => (CartNotFound, s)
  | Some cartTotal =>
    if fails SelCartItems then (CartItemsFailed, s) else
    match scan_rows fails ScanCartItem item_of_cart 0 (cart_rows userID s) with
    | None => (CartItemScanFailed, s)
    | Some items =>
    if decide (length items = 0%nat) then (CartEmpty, s) else
    if fails SelHeart then (HeartLookupFailed, s) else
    match users s !! userID with
    | None => (HeartLookupFailed, s)
    | Some heartCount =>
      let expiration := now + duration_of heartCount in
      if fails BeginCreate then (BeginFailed, s) else
      if fails InsOrder then (OrderInsertFailed, rollback s s) else
      let orderID := next_order_id s in
      let s1 := bump_order_id
        (set_orders (λ t, t ++ [mkOrder orderID userID (Some userID) "waitToBuy"
                                        cartTotal expiration now now]) s) in
      match insert_order_items fails orderID 0 items s1 with
      | (false, s2) => (OrderItemInsertFailed, rollback s s2)
      | (true, s2) =>
        match CreateStockReservationTx fails resNow orderID userID items s2 with
        | (false, s3) => (StockReservationFailed, rollback s s3)
        | (true, s3) =>
          let s4 := clear_cart fails userID s3 in
          if fails CommitCreate then (CommitFailed, rollback s s4)
          else (OrderCreated orderID expiration, s4)
        end
      end
    end
    end
  end.


(** ** Order cancellation *)

(** [SELECT id FROM temp_stock_reservations WHERE order_id = ?]. *)
Definition reservation_ids_of (orderID : Z) (s : DB) : list Z :=
  r_ID <$> filter (λ r, r_OrderID r = orderID) (temp_stock_reservations s).

(** [DELETE FROM temp_stock_details WHERE temp_reservation_id IN (SELECT id
    FROM temp_stock_reservations WHERE order_id = ?)]. *)
Definition delete_details_of (orderID : Z) (s : DB) : DB :=
  set_details
    (filter (λ d, d_TempReservationID d ∉ reservation_ids_of orderID s)) s.

(** [DELETE FROM temp_stock_reservations WHERE order_id = ?]. *)
Definition delete_reservations_of (orderID : Z) (s : DB) : DB :=
  set_reservations (filter (λ r, r_OrderID r ≠ orderID)) s.

Definition DeleteStockReservationTx (fails : stmt → bool) (orderID : Z) (s : DB)
    : bool * DB :=
  if fails DelDetailsTx then (false, s) else
  let s1 := delete_details_of orderID s in
  if fails DelReservationTx then (false, s1) else
  (true, delete_reservations_of orderID s1).

Fixpoint ReturnStockToInventoryTx (fails : stmt → bool) (k : nat)
    (items : list OrderItemModel) (s : DB) : bool * DB :=
  match items with
  | [] => (true, s)
  | item :: rest =>
      if fails (IncStock k) then (false, s) else
      ReturnStockToInventoryTx fails (S k) rest
        (increment_stock (ProductID item) (ProductVariantID item) (Quantity item) s)
  end.

(** [GetOrderItems(db, orderID)]. *)
Definition GetOrderItems (fails : stmt → bool) (orderID : Z) (s : DB)
    : option (list OrderItemModel) :=
  if fails SelOrderItems then None else
  match scan_rows fails ScanOrderItem id 0
          (filter (λ it, OrderID it = orderID) (order_items s)) with
  | None => None
  | Some items => if fails OrderItemsErr then None else Some items
  end.

(** [UPDATE orders SET status = ?, updated_at = ? WHERE id = ?]. *)
Definition set_status_at (orderID : Z) (status : string) (now : Z) (o : OrderModel)
    : OrderModel :=
  if decide (o_ID o = orderID)
  then mkOrder (o_ID o) (o_UserID o) (o_CartUserID o) status (o_TotalPrice o)
               (o_TimerExpiration o) (o_CreatedAt o) now
  else o.

Inductive CancelOrderResp :=
| OrderNotFound        (* 404 "Order tidak ditemukan" *)
| OrderCheckFailed     (* 500 "Gagal cek order" *)
| NotOwner             (* 401 "Tidak bisa membatalkan order orang lain" *)
| NotCancelable        (* 400 "Order tidak bisa dibatalkan" *)
| OrderItemsFailed     (* 500 "Gagal ambil item order" *)
| CancelBeginFailed    (* 500 "Gagal mulai transaksi" *)
| StatusUpdateFailed   (* 500 "Gagal mengubah status order" *)
| ReservationDeleteFailed (* 500 "Gagal menghapus stock reservation" *)
| StockReturnFailed    (* 500 "Gagal mengembalikan stok" *)
| CancelCommitFailed   (* 500 "Gagal menyimpan pembatalan" *)
| OrderCanceled.       (* 200 "Order berhasil dibatalkan" *)

(** [CancelOrder]: [userID] is the requester, [orderID] the parsed [:id]. *)
Definition CancelOrder (fails : stmt → bool) (userID orderID now : Z) (s : DB)
    : CancelOrderResp * DB :=
  if fails SelOrder then (OrderCheckFailed, s) else
  match head (filter (λ o, o_ID o = orderID) (orders s)) with
  | None => (OrderNotFound, s)
  | Some order =>
    if decide (o_UserID order ≠ userID) then (NotOwner, s) else
    if decide (o_Status order ≠ "waitToBuy") then (NotCancelable, s) else
    match GetOrderItems fails orderID s with
    | None => (OrderItemsFailed, s)
    | Some items =>
      if fails BeginCancel then (CancelBeginFailed, s) else
      if fails UpdCanceled then (StatusUpdateFailed, rollback s s) else
      let s1 := set_orders (fmap (set_status_at orderID "canceled" now)) s in
      match DeleteStockReservationTx fails orderID s1 with
      | (false, s2) => (ReservationDeleteFailed, rollback s s2)
      | (true, s2) =>
        match ReturnStockToInventoryTx fails 0 items s2 with
        | (false, s3) => (StockReturnFailed, rollback s s3)
        | (true, s3) =>
          if fails CommitCancel then (CancelCommitFailed, rollback s s3)
          else (OrderCanceled, s3)
        end
      end
    end
  end.

(** ** Expiry sweep *)

(** The rows of [temp_stock_details tsd LEFT JOIN temp_stock_reservations tsr
    ON tsr.id = tsd.temp_reservation_id WHERE tsr.order_id = ?]: one row per
    pair of a detail and a reservation of that order it belongs to. *)
Definition revert_rows (orderID : Z) (s : DB) : list TempStockDetailModel :=
  d ← temp_stock_details s;
  (λ _, d) <$> filter (λ r, r_ID r = d_TempReservationID d ∧ r_OrderID r = orderID)
                      (temp_stock_reservations s).

(** The anonymous struct DeleteStockReservationAndReturn scans into. *)
Definition detail_item (d : TempStockDetailModel) : OrderItemModel :=
  mkOrderItem 0 (d_ProductID d) (d_ProductVariantID d) (d_Quantity d) 0 0.

Fixpoint revert_stock (fails : stmt → bool) (i k : nat)
    (stockDetails : list OrderItemModel) (s : DB) : bool * DB :=
  match stockDetails with
  | [] => (true, s)
  | detail :: rest =>
      if fails (IncRevertStock i k) then (false, s) else
      revert_stock fails i (S k) rest
        (increment_stock (ProductID detail) (ProductVariantID detail)
                         (Quantity detail) s)
  end.

(** [DeleteStockReservationAndReturn(orderID, db)], run for the i-th expired
    order.  It returns nothing: every error is logged and the deferred
    [tx.Rollback()] undoes the transaction. *)
Definition DeleteStockReservationAndReturn (fails : stmt → bool) (i : nat)
    (orderID : Z) (s : DB) : DB :=
  if fails (BeginRevert i) then s else
  if fails (SelRevertDetails i) then rollback s s else
  match scan_rows fails (ScanRevertDetail i) detail_item 0 (revert_rows orderID s) with
  | None => rollback s s
  | Some stockDetails =>
    if fails (DelRevertDetails i) then rollback s s else
    let s1 := delete_details_of orderID s in
    if fails (DelRevertReservation i) then rollback s s1 else
    let s2 := delete_reservations_of orderID s1 in
    match revert_stock fails i 0 stockDetails s2 with
    | (false, s3) => rollback s s3
    | (true, s3) => if fails (CommitRevert i) then rollback s s3 else s3
    end
  end.

(** [UPDATE orders SET status = 'expired' WHERE id = ?]. *)
Definition set_expired_at (orderID : Z) (o : OrderModel) : OrderModel :=
  if decide (o_ID o = orderID)
  then mkOrder (o_ID o) (o_UserID o) (o_CartUserID o) "expired" (o_TotalPrice o)
               (o_TimerExpiration o) (o_CreatedAt o) (o_UpdatedAt o)
  else o.

(** [WHERE o.status = 'waitToBuy' AND o.timer_expiration < NOW()]. *)
Definition is_overdue (now : Z) (o : OrderModel) : Prop :=
  o_Status o = "waitToBuy" ∧ o_TimerExpiration o < now.

#[global] Instance is_overdue_dec now o : Decision (is_overdue now o).
Proof. unfold is_overdue. apply _. Defined.

Inductive SweepResp :=
| CheckFailed        (* 500 "Failed to check expired orders" *)
| ScanFailed         (* 500 "Failed to scan order data" *)
| RowsFailed         (* 500 "Error iterating rows" *)
| StatusFailed       (* 500 "Failed to update order status" *)
| HeartsFailed       (* 500 "Failed to decrease hearts" *)
| Processed.         (* 200 "Expired orders have been processed" *)

(** The loop over [expiredOrders], each a pair (OrderID, UserID).  Both
    UPDATEs run on [db], outside any transaction; an error in either ends
    the handler. *)
Fixpoint expire_loop (fails : stmt → bool) (i : nat) (expiredOrders : list (Z * Z))
    (s : DB) : SweepResp * DB :=
  match expiredOrders with
  | [] => (Processed, s)
  | (orderID, userID) :: rest =>
      if fails (UpdExpired i) then (StatusFailed, s) else
      let s1 := set_orders (fmap (set_expired_at orderID)) s in
      if fails (DecHearts i) then (HeartsFailed, s1) else
      let s2 := set_users (alter (λ h, h - 1) userID) s1 in
      let s3 := DeleteStockReservationAndReturn fails i orderID s2 in
      expire_loop fails (S i) rest s3
  end.

(** [CheckAndExpireOrders]; [now] is the store's [NOW()].  The query
    selects three columns, [o.id, o.user_id, o.timer_expiration], and the
    loop scans each row into two destinations, [&order.OrderID,
    &order.UserID]. *)
Definition CheckAndExpireOrders (fails : stmt → bool) (now : Z) (s : DB)
    : SweepResp * DB :=
  if fails SelExpired then (CheckFailed, s) else
  match scan_rows (scan_error fails 3 2) ScanExpired (λ o, (o_ID o, o_UserID o)) 0
          (filter (is_overdue now) (orders s)) with
  | None => (ScanFailed, s)
  | Some expiredOrders =>
    if fails ExpiredErr then (RowsFailed, s) else
    expire_loop fails 0 expiredOrders s
  end.

(** The query CleanExpiredReservations starts from: the details joined to
    their reservation, [WHERE r.expired_at <= NOW()]. *)
Definition expired_reservation_rows (now : Z) (s : DB)
    : list (TempStockReservationModel * TempStockDetailModel) :=
  d ← temp_stock_details s;
  (λ r, (r, d)) <$> filter (λ r, r_ID r = d_TempReservationID d ∧ r_ExpiredAt r ≤ now)
                           (temp_stock_reservations s).

(** ** Reference effects, used to state what a handler did *)

(** All conditional decrements of a list of items, in order. *)
Definition decrement_all (items : list OrderItemModel) (s : DB) : DB :=
  foldl (λ acc item,
           decrement_stock (ProductID item) (ProductVariantID item) (Quantity item) acc)
        s items.

(** All unconditional increments of a list of items, in order. *)
Definition increment_all (items : list OrderItemModel) (s : DB) : DB :=
  foldl (λ acc item,
           increment_stock (ProductID item) (ProductVariantID item) (Quantity item) acc)
        s items.

#[global] Instance SKU_eq_dec : EqDecision SKU.
Proof. solve_decision. Defined.

(** Quantity the live reservation details hold against a SKU. *)
Definition reserved_for (k : SKU) (s : DB) : Z :=
  foldr Z.add 0
    (d_Quantity <$> filter (λ d, sku_of (d_ProductID d) (d_ProductVariantID d) = k)
                           (temp_stock_details s)).

(** Every conditional decrement of the items, run in order from [s],
    finds the quantity it asks for (or no row at all). *)
Fixpoint decrements_apply (items : list OrderItemModel) (s : DB) : Prop :=
  match items with
  | [] => True
  | item :: rest =>
      (∀ st, stock_of (sku_of (ProductID item) (ProductVariantID item)) s = Some st →
             Quantity item ≤ st) ∧
      decrements_apply rest
        (decrement_stock (ProductID item) (ProductVariantID item) (Quantity item) s)
  end.

(** Two stores agree on the stock columns. *)
Definition same_stock (a b : DB) : Prop :=
  products a = products b ∧ product_variants a = product_variants b.

(** [SET status = 'expired'] on one row. *)
Definition mark_expired (o : OrderModel) : OrderModel :=
  mkOrder (o_ID o) (o_UserID o) (o_CartUserID o) "expired" (o_TotalPrice o)
          (o_TimerExpiration o) (o_CreatedAt o) (o_UpdatedAt o).

(** No stock column is negative. *)
Definition stock_nonneg (s : DB) : Prop :=
  (∀ p st, products s !! p = Some st → 0 ≤ st) ∧
  (∀ v st, product_variants s !! v = Some st → 0 ≤ st).

(** No recorded quantity is negative. *)
Definition quantities_nonneg (s : DB) : Prop :=
  Forall (λ ci, 0 ≤ ci_Quantity ci) (cart_items s) ∧
  Forall (λ it, 0 ≤ Quantity it) (order_items s) ∧
  Forall (λ d, 0 ≤ d_Quantity d) (temp_stock_details s).

Definition ledger_inv (s : DB) : Prop := stock_nonneg s ∧ quantities_nonneg s.

(** One request to the engine, with the store errors it meets. *)
Inductive request :=
| ReqCreate (fails : stmt → bool) (userID now resNow : Z)
| ReqCancel (fails : stmt → bool) (userID orderID now : Z)
| ReqSweep (fails : stmt → bool) (now : Z).

Definition serve (s : DB) (q : request) : DB :=
  match q with
  | ReqCreate fails userID now resNow => snd (CreateOrder fails userID now resNow s)
  | ReqCancel fails userID orderID now => snd (CancelOrder fails userID orderID now s)
  | ReqSweep fails now => snd (CheckAndExpireOrders fails now s)
  end.

(** ** The helpers that open their own transaction

    CreateStockReservation, DeleteStockReservation and ReturnStockToInventory
    are the older siblings of the [...Tx] helpers: each begins a transaction
    and ends it in a deferred closure, [tx.Rollback()] when the function's
    [err] variable is set and [tx.Commit()] otherwise.  The closure drops
    the error of the Commit. *)

(** Fault labels of the helpers and of CleanExpiredReservations. *)
Inductive stmt_aux :=
(* CreateStockReservation *)
| ABegin | ASelHearts | AInsReservation | ALastInsertId
| ADecStock (k : nat) | AInsDetail (k : nat) | ACommit
(* DeleteStockReservation *)
| DSel | DScan (k : nat) | DBegin | DIncStock (k : nat)
| DDelDetails | DDelReservation | DCommit
(* ReturnStockToInventory *)
| RBegin | RIncStock (k : nat) | RCommit
(* CleanExpiredReservations *)
| CSel | CScan (k : nat) | CBegin | CIncStock (k : nat)
| CUpdOrders | CDelReservations | CCommit
(* AddToCartTotalPrice, SubtractFromCartTotalPrice *)
| TAdd | TSub.

Definition no_fault_aux : stmt_aux → bool := λ _, false.

(** A [rows.Next()/rows.Scan()] loop over any label type. *)
Fixpoint scan_with {L A B : Type} (fails : L → bool) (lbl : nat → L)
    (f : A → B) (k : nat) (rows : list A) : option (list B) :=
  match rows with
  | [] => Some []
  | row :: rest =>
      if fails (lbl k) then None
      else cons (f row) <$> scan_with fails lbl f (S k) rest
  end.

(** A loop of unconditional stock increments, one per item, that stops at
    the first statement error. *)
Fixpoint release_with {L : Type} (fails : L → bool) (lbl : nat → L) (k : nat)
    (items : list OrderItemModel) (s : DB) : bool * DB :=
  match items with
  | [] => (true, s)
  | item :: rest =>
      if fails (lbl k) then (false, s) else
      release_with fails lbl (S k) rest
        (increment_stock (ProductID item) (ProductVariantID item) (Quantity item) s)
  end.

(** What a helper returns: [nil], a driver error, or
    [errors.New("invalid heart count")]. *)
Inductive HelperResult :=
| HelperOk
| HelperStoreError
| InvalidHeartCount.

(** The loop of CreateStockReservation: conditional decrement first, then
    the detail row. *)
Fixpoint reserve_items_own (fails : stmt_aux → bool) (reservationID : Z) (k : nat)
    (items : list OrderItemModel) (s : DB) : bool * DB :=
  match items with
  | [] => (true, s)
  | item :: rest =>
      if fails (ADecStock k) then (false, s) else
      let s1 := decrement_stock (ProductID item) (ProductVariantID item)
                                (Quantity item) s in
      if fails (AInsDetail k) then (false, s1) else
      reserve_items_own fails reservationID (S k) rest
        (set_details (λ t, t ++ [detail_of reservationID item]) s1)
  end.

(** [CreateStockReservation(db, orderID, userID, items)].  On an unmapped
    balance the function returns a fresh error without assigning [err], so
    the deferred closure commits the (still empty) transaction.  On the
    normal path a failed Commit is not reported: the function has already
    returned [nil]. *)
Definition CreateStockReservation (fails : stmt_aux → bool) (now : Z)
    (orderID userID : Z) (items : list OrderItemModel) (s : DB)
    : HelperResult * DB :=
  if fails ABegin then (HelperStoreError, s) else
  if fails ASelHearts then (HelperStoreError, rollback s s) else
  match users s !! userID with
  | None => (HelperStoreError, rollback s s)
  | Some hearts =>
    match CreateStockReservation_expiry now hearts with
    | None => (InvalidHeartCount, s)
    | Some expiredAt =>
      if fails AInsReservation then (HelperStoreError, rollback s s) else
      let reservationID := next_reservation_id s in
      let s1 := bump_reservation_id
        (set_reservations
           (λ t, t ++ [mkReservation reservationID userID orderID now expiredAt]) s) in
      if fails ALastInsertId then (HelperStoreError, rollback s s1) else
      match reserve_items_own fails reservationID 0 items s1 with
      | (false, s2) => (HelperStoreError, rollback s s2)
      | (true, s2) =>
          if fails ACommit then (HelperOk, rollback s s2) else (HelperOk, s2)
      end
    end
  end.

(** [DeleteStockReservation(db, orderID)]: the details of the order's
    reservation are read on [db], then one transaction gives the stock back
    and deletes the details and the reservation. *)
Definition DeleteStockReservation (fails : stmt_aux → bool) (orderID : Z) (s : DB)
    : HelperResult * DB :=
  if fails DSel then (HelperStoreError, s) else
  match scan_with fails DScan detail_item 0 (revert_rows orderID s) with
  | None => (HelperStoreError, s)
  | Some items =>
    if fails DBegin then (HelperStoreError, s) else
    match release_with fails DIncStock 0 items s with
    | (false, s1) => (HelperStoreError, rollback s s1)
    | (true, s1) =>
      if fails DDelDetails then (HelperStoreError, rollback s s1) else
      let s2 := delete_details_of orderID s1 in
      if fails DDelReservation then (HelperStoreError, rollback s s2) else
      let s3 := delete_reservations_of orderID s2 in
      if fails DCommit then (HelperOk, rollback s s3) else (HelperOk, s3)
    end
  end.

(** [ReturnStockToInventory(db, items)]. *)
Definition ReturnStockToInventory (fails : stmt_aux → bool)
    (items : list OrderItemModel) (s : DB) : HelperResult * DB :=
  if fails RBegin then (HelperStoreError, s) else
  match release_with fails RIncStock 0 items s with
  | (false, s1) => (HelperStoreError, rollback s s1)
  | (true, s1) =>
      if fails RCommit then (HelperOk, rollback s s1) else (HelperOk, s1)
  end.

(** ** Cart total helpers *)

(** [UPDATE carts SET total_price = total_price + ? WHERE id = ?]. *)
Definition AddToCartTotalPrice (fails : stmt_aux → bool) (cartID amount : Z) (s : DB)
    : bool * DB :=
  if fails TAdd then (false, s)
  else (true, set_carts (alter (λ t, t + amount) cartID) s).

(** [UPDATE carts SET total_price = GREATEST(0, total_price - ?) WHERE id = ?]. *)
Definition SubtractFromCartTotalPrice (fails : stmt_aux → bool) (cartID amount : Z)
    (s : DB) : bool * DB :=
  if fails TSub then (false, s)
  else (true, set_carts (alter (λ t, Z.max 0 (t - amount)) cartID) s).

(** ** CleanExpiredReservations *)

(** [strings.Repeat]. *)
Fixpoint Repeat (s : string) (count : nat) : string :=
  match count with
  | O => EmptyString
  | S n => String.append s (Repeat s n)
  end.

(** [strings.Split(s, sep)] for a one-byte separator: the pieces between
    the separators, with an empty piece after a trailing separator. *)
Fixpoint Split (sep : Ascii.ascii) (s : string) : list string :=
  match s with
  | EmptyString => [EmptyString]
  | String c rest =>
      if Ascii.eqb c sep then EmptyString :: Split sep rest
      else match Split sep rest with
           | [] => [String c EmptyString]
           | piece :: pieces => String c piece :: pieces
           end
  end.

(** [strings.Join(elems, sep)]. *)
Fixpoint Join (elems : list string) (sep : string) : string :=
  match elems with
  | [] => EmptyString
  | [piece] => piece
  | piece :: rest => String.append piece (String.append sep (Join rest sep))
  end.

(** The [placeholder] CleanExpiredReservations splices into [IN (%s)]. *)
Definition placeholder (n : nat) : string :=
  Join (Split ","%char (Repeat "?," n)) ",".

(** The list MySQL accepts inside [IN (...)] when every expression is a
    placeholder: one [?], or a [?], a comma and such a list again.  An empty
    list and a list that ends in a comma are syntax errors (error 1064), and
    the statement is refused before it touches a row. *)
Fixpoint in_list_ok (p : string) : bool :=
  match p with
  | String "?"%char EmptyString => true
  | String "?"%char (String ","%char rest) => in_list_ok rest
  | _ => false
  end.

(** A statement built with [fmt.Sprintf("... IN (%s)", placeholder)]
    returns an error when the store fails or when the text does not parse. *)
Definition in_stmt_error (fails : stmt_aux → bool) (l : stmt_aux) (p : string) : bool :=
  fails l || negb (in_list_ok p).

(** [ExpiredReservationInfo]. *)
Record ExpiredReservationInfo := mkInfo {
  eri_ID : Z;
  eri_OrderID : Z;
  eri_ProductID : Z;
  eri_ProductVariantID : option Z;
  eri_Quantity : Z
}.

Definition info_of (rd : TempStockReservationModel * TempStockDetailModel)
    : ExpiredReservationInfo :=
  mkInfo (d_TempReservationID rd.2) (r_OrderID rd.1) (d_ProductID rd.2)
         (d_ProductVariantID rd.2) (d_Quantity rd.2).

(** The stock a row of [details] names. *)
Definition info_item (d : ExpiredReservationInfo) : OrderItemModel :=
  mkOrderItem 0 (eri_ProductID d) (eri_ProductVariantID d) (eri_Quantity d) 0 0.

(** [SELECT order_id FROM temp_stock_reservations WHERE expired_at <= NOW()
    AND id IN (ids)]. *)
Definition expired_order_ids (now : Z) (ids : list Z) (s : DB) : list Z :=
  r_OrderID <$> filter (λ r, r_ExpiredAt r ≤ now ∧ r_ID r ∈ ids)
                       (temp_stock_reservations s).

Inductive CleanResp :=
| CleanFetchFailed     (* 500 "Gagal fetch expired reservations" *)
| CleanParseFailed     (* 500 "Gagal parsing data" *)
| NothingExpired       (* 200 "Tidak ada reservasi expired" *)
| CleanBeginFailed     (* 500 "Gagal mulai transaksi" *)
| CleanStockFailed     (* 500 "Gagal rollback stok" *)
| NoReservationIDs     (* 400 "Tidak ada ID reservasi untuk diproses" *)
| CleanUpdateFailed    (* 500 "Gagal update status order" *)
| CleanDeleteFailed    (* 500 "Gagal hapus reservasi" *)
| CleanCommitFailed    (* 500 "Gagal commit perubahan" *)
| Cleaned.             (* 200 "Expired reservations dibersihkan" *)

(** [CleanExpiredReservations]; [now0], [now1] and [now2] are the store's
    [NOW()] in the SELECT, the UPDATE and the DELETE.  [ids] are the keys of
    the [reservationIDs] map (membership is all the statements use); the
    UPDATE and the DELETE splice [placeholder (len(ids))] into their text.  The
    branch on an empty [ids] returns with the transaction neither committed
    nor rolled back; nothing of it is kept. *)
Definition CleanExpiredReservations (fails : stmt_aux → bool) (now0 now1 now2 : Z)
    (s : DB) : CleanResp * DB :=
  if fails CSel then (CleanFetchFailed, s) else
  match scan_with fails CScan info_of 0 (expired_reservation_rows now0 s) with
  | None => (CleanParseFailed, s)
  | Some details =>
    if decide (length details = 0%nat) then (NothingExpired, s) else
    if fails CBegin then (CleanBeginFailed, s) else
    match release_with fails CIncStock 0 (info_item <$> details) s with
    | (false, s1) => (CleanStockFailed, rollback s s1)
    | (true, s1) =>
      let ids := remove_dups (eri_ID <$> details) in
      if decide (length ids = 0%nat) then (NoReservationIDs, rollback s s1) else
      if in_stmt_error fails CUpdOrders (placeholder (length ids))
      then (CleanUpdateFailed, rollback s s1) else
      let s2 := set_orders
        (fmap (λ o, if decide (o_ID o ∈ expired_order_ids now1 ids s1)
                    then mark_expired o else o)) s1 in
      if in_stmt_error fails CDelReservations (placeholder (length ids))
      then (CleanDeleteFailed, rollback s s2) else
      let s3 := set_reservations
        (filter (λ r, ¬ (r_ExpiredAt r ≤ now2 ∧ r_ID r ∈ ids))) s2 in
      if fails CCommit then (CleanCommitFailed, rollback s s3)
      else (Cleaned, s3)
    end
  end.

(** ** Concrete stores and store faults used in the examples *)

(** *** A concrete store: product 1 with the given stock, user 7 with the
    given credit and a cart holding one line of [qty] units of product 1. *)
Definition shop (stock heart qty : Z) : DB :=
  mkDB {[ 1 := stock ]} ∅ {[ 7 := heart ]} {[ 7 := qty * 10 ]}
       [mkCartItem 7 1 None qty 10 (qty * 10)] [] [] [] [] 1 1.

(** Only the cart-clearing statement fails. *)
Definition fail_cart_delete (l : stmt) : bool :=
  match l with DelCartItems => true | _ => false end.

(** *** Concrete stores for the sweep: product 1, users 7 (credit 2) and 8
    (credit 3), each with one cart line of product 1 (2 and 3 units). *)
Definition shop2 (stock : Z) : DB :=
  mkDB {[ 1 := stock ]} ∅ {[ 7 := 2; 8 := 3 ]} {[ 7 := 20; 8 := 30 ]}
       [mkCartItem 7 1 None 2 10 20; mkCartItem 8 1 None 3 10 30] [] [] [] [] 1 1.

(** Both users have ordered. *)
Definition booked2 (stock : Z) : DB :=
  snd (CreateOrder no_fault 8 2000 2001
         (snd (CreateOrder no_fault 7 1000 1001 (shop2 stock)))).

(** Only the Commit of CreateStockReservation fails. *)
Definition fail_own_commit (l : stmt_aux) : bool :=
  match l with ACommit => true | _ => false end.

(** No reservation of the store is for the order or has the id the next
    INSERT will get, and no detail row points at that id. *)
Definition reservation_fresh (orderID : Z) (s : DB) : Prop :=
  (∀ r, r ∈ temp_stock_reservations s →
        r_ID r ≠ next_reservation_id s ∧ r_OrderID r ≠ orderID) ∧
  (∀ d, d ∈ temp_stock_details s →
        d_TempReservationID d ≠ next_reservation_id s).

(** One call of the engine: a request as above, or a run of
    CleanExpiredReservations. *)
Inductive action :=
| ActRequest (q : request)
| ActClean (fails : stmt_aux → bool) (now0 now1 now2 : Z).

Definition perform (s : DB) (a : action) : DB :=
  match a with
  | ActRequest q => serve s q
  | ActClean fails now0 now1 now2 =>
      snd (CleanExpiredReservations fails now0 now1 now2 s)
  end.

(** What the primary key and AUTO_INCREMENT of [orders] give: order ids are
    distinct and below the next id to be handed out, as are the order ids
    reservations carry. *)
Definition orders_wf (s : DB) : Prop :=
  NoDup (o_ID <$> orders s) ∧
  (∀ o, o ∈ orders s → o_ID o < next_order_id s) ∧
  (∀ r, r ∈ temp_stock_reservations s → r_OrderID r < next_order_id s).

(** No reservation is held for a canceled order. *)
Definition no_hold_on_canceled (s : DB) : Prop :=
  ∀ r o, r ∈ temp_stock_reservations s → o ∈ orders s →
         o_ID o = r_OrderID r → o_Status o ≠ "canceled".

(** User 7 has ordered and canceled. *)
Definition canceled1 : DB :=
  snd (CancelOrder no_fault 7 1 1500
         (snd (CreateOrder no_fault 7 1000 1001 (shop2 10)))).

(** * Properties *)

Lemma users_decrement_stock p v q s : users (decrement_stock p v q s) = users s.
Proof. by destruct v. Qed.

Lemma carts_decrement_stock p v q s : carts (decrement_stock p v q s) = carts s.
Proof. by destruct v. Qed.

Lemma cart_items_decrement_stock p v q s : cart_items (decrement_stock p v q s) = cart_items s.
Proof. by destruct v. Qed.

Lemma orders_decrement_stock p v q s : orders (decrement_stock p v q s) = orders s.
Proof. by destruct v. Qed.

Lemma order_items_decrement_stock p v q s : order_items (decrement_stock p v q s) = order_items s.
Proof. by destruct v. Qed.

Lemma temp_stock_reservations_decrement_stock p v q s : temp_stock_reservations (decrement_stock p v q s) = temp_stock_reservations s.
Proof. by destruct v. Qed.

Lemma temp_stock_details_decrement_stock p v q s : temp_stock_details (decrement_stock p v q s) = temp_stock_details s.
Proof. by destruct v. Qed.

Lemma next_order_id_decrement_stock p v q s : next_order_id (decrement_stock p v q s) = next_order_id s.
Proof. by destruct v. Qed.

Lemma next_reservation_id_decrement_stock p v q s : next_reservation_id (decrement_stock p v q s) = next_reservation_id s.
Proof. by destruct v. Qed.

Lemma users_increment_stock p v q s : users (increment_stock p v q s) = users s.
Proof. by destruct v. Qed.

Lemma carts_increment_stock p v q s : carts (increment_stock p v q s) = carts s.
Proof. by destruct v. Qed.

Lemma cart_items_increment_stock p v q s : cart_items (increment_stock p v q s) = cart_items s.
Proof. by destruct v. Qed.

Lemma orders_increment_stock p v q s : orders (increment_stock p v q s) = orders s.
Proof. by destruct v. Qed.

Lemma order_items_increment_stock p v q s : order_items (increment_stock p v q s) = order_items s.
Proof. by destruct v. Qed.

Lemma temp_stock_reservations_increment_stock p v q s : temp_stock_reservations (increment_stock p v q s) = temp_stock_reservations s.
Proof. by destruct v. Qed.

Lemma temp_stock_details_increment_stock p v q s : temp_stock_details (increment_stock p v q s) = temp_stock_details s.
Proof. by destruct v. Qed.

Lemma next_order_id_increment_stock p v q s : next_order_id (increment_stock p v q s) = next_order_id s.
Proof. by destruct v. Qed.

Lemma next_reservation_id_increment_stock p v q s : next_reservation_id (increment_stock p v q s) = next_reservation_id s.
Proof. by destruct v. Qed.

Create Rewrite HintDb frame.
#[global] Hint Rewrite users_decrement_stock carts_decrement_stock cart_items_decrement_stock orders_decrement_stock order_items_decrement_stock temp_stock_reservations_decrement_stock temp_stock_details_decrement_stock next_order_id_decrement_stock next_reservation_id_decrement_stock
  users_increment_stock carts_increment_stock cart_items_increment_stock orders_increment_stock order_items_increment_stock temp_stock_reservations_increment_stock temp_stock_details_increment_stock next_order_id_increment_stock next_reservation_id_increment_stock : frame.

Section Frames.

Context (fails : stmt → bool).

Lemma same_tables_refl s : same_tables s s.
Proof. repeat split. Qed.

Lemma same_tables_rollback s0 s : same_tables (rollback s0 s) s0.
Proof. repeat split. Qed.

Lemma scan_rows_Some {A B} (lbl : nat → stmt) (f : A → B) rows :
  ∀ k l, scan_rows fails lbl f k rows = Some l → l = f <$> rows.
Proof.
  induction rows as [|row rest IH]; intros k l; simpl.
  - by intros [= <-].
  - destruct (fails (lbl k)); [done|].
    destruct (scan_rows fails lbl f (S k) rest) as [l'|] eqn:E; [|done].
    intros [= <-]. by rewrite (IH _ _ E).
Qed.

(** What the order-item loop leaves behind, whether or not it finished. *)
Lemma insert_order_items_frame orderID items :
  ∀ k s ok s', insert_order_items fails orderID k items s = (ok, s') →
    products s' = products s ∧ product_variants s' = product_variants s ∧
    users s' = users s ∧ carts s' = carts s ∧ cart_items s' = cart_items s ∧
    orders s' = orders s ∧
    temp_stock_reservations s' = temp_stock_reservations s ∧
    temp_stock_details s' = temp_stock_details s ∧
    next_order_id s' = next_order_id s ∧
    next_reservation_id s' = next_reservation_id s ∧
    (ok = true → order_items s' = order_items s ++ (order_item_of orderID <$> items)).
Proof.
  induction items as [|item rest IH]; intros k s ok s'; simpl.
  - intros [= <- <-]. rewrite app_nil_r. done.
  - destruct (fails (InsOrderItem k)).
    + intros [= <- <-]. split_and!; done.
    + intros H. apply IH in H. simpl in H.
      destruct H as (?&?&?&?&?&?&?&?&?&?&Hoi). split_and!; try done.
      intros ->. rewrite Hoi by done. by rewrite <- app_assoc.
Qed.

Lemma decrement_stock_set_details f p v q s :
  decrement_stock p v q (set_details f s) = set_details f (decrement_stock p v q s).
Proof. by destruct v. Qed.

Lemma decrement_all_set_details f items :
  ∀ s, decrement_all items (set_details f s) = set_details f (decrement_all items s).
Proof.
  induction items as [|item rest IH]; intros s; simpl; [done|].
  by rewrite decrement_stock_set_details, IH.
Qed.

(** What the reservation loop leaves behind. *)
Lemma reserve_items_frame tempResID items :
  ∀ k s ok s', reserve_items fails tempResID k items s = (ok, s') →
    users s' = users s ∧ carts s' = carts s ∧ cart_items s' = cart_items s ∧
    orders s' = orders s ∧ order_items s' = order_items s ∧
    temp_stock_reservations s' = temp_stock_reservations s ∧
    next_order_id s' = next_order_id s ∧
    next_reservation_id s' = next_reservation_id s ∧
    (ok = true →
       temp_stock_details s' = temp_stock_details s ++ (detail_of tempResID <$> items) ∧
       products s' = products (decrement_all items s) ∧
       product_variants s' = product_variants (decrement_all items s)).
Proof.
  induction items as [|item rest IH]; intros k s ok s'; simpl.
  - intros [= <- <-]. rewrite app_nil_r. done.
  - destruct (fails (InsDetail k)).
    { intros [= <- <-]. split_and!; done. }
    destruct (fails (DecStock k)).
    { intros [= <- <-]. split_and!; done. }
    intros H. apply IH in H.
    destruct H as (Hu&Hc&Hci&Ho&Hoi&Hr&Hn1&Hn2&Hok).
    autorewrite with frame in *. simpl in *. split_and!; try done.
    intros ->. destruct Hok as (Hd&Hp&Hv); [done|]. split_and!.
    + rewrite Hd. by rewrite <- app_assoc.
    + by rewrite Hp, decrement_stock_set_details, decrement_all_set_details.
    + by rewrite Hv, decrement_stock_set_details, decrement_all_set_details.
Qed.

Lemma decrement_all_same_stock items :
  ∀ a b, same_stock a b → same_stock (decrement_all items a) (decrement_all items b).
Proof.
  induction items as [|item rest IH]; intros a b [Hp Hv]; simpl; [done|].
  apply IH. unfold decrement_stock, same_stock.
  destruct (ProductVariantID item); simpl; by rewrite ?Hp, ?Hv.
Qed.

Lemma increment_all_same_stock items :
  ∀ a b, same_stock a b → same_stock (increment_all items a) (increment_all items b).
Proof.
  induction items as [|item rest IH]; intros a b [Hp Hv]; simpl; [done|].
  apply IH. unfold increment_stock, same_stock.
  destruct (ProductVariantID item); simpl; by rewrite ?Hp, ?Hv.
Qed.

Lemma clear_cart_frame userID s :
  let s' := clear_cart fails userID s in
  products s' = products s ∧ product_variants s' = product_variants s ∧
  users s' = users s ∧ orders s' = orders s ∧ order_items s' = order_items s ∧
  temp_stock_reservations s' = temp_stock_reservations s ∧
  temp_stock_details s' = temp_stock_details s.
Proof.
  unfold clear_cart.
  destruct (fails DelCartItems), (fails ZeroCartTotal); simpl; done.
Qed.

(** Everything a successful CreateOrder wrote. *)
Lemma CreateOrder_created userID now resNow s id e s' :
  CreateOrder fails userID now resNow s = (OrderCreated id e, s') →
  ∃ total h,
    let items := item_of_cart <$> cart_rows userID s in
    carts s !! userID = Some total ∧ users s !! userID = Some h ∧
    items ≠ [] ∧ id = next_order_id s ∧ e = now + duration_of h ∧
    orders s' = orders s ++
      [mkOrder id userID (Some userID) "waitToBuy" total e now now] ∧
    order_items s' = order_items s ++ (order_item_of id <$> items) ∧
    temp_stock_reservations s' = temp_stock_reservations s ++
      [mkReservation (next_reservation_id s) userID id resNow resNow] ∧
    temp_stock_details s' = temp_stock_details s ++
      (detail_of (next_reservation_id s) <$> items) ∧
    same_stock s' (decrement_all items s) ∧
    users s' = users s ∧
    cart_items s' = (if fails DelCartItems then cart_items s
                     else filter (λ ci, ci_CartID ci ≠ userID) (cart_items s)) ∧
    carts s' = (if fails ZeroCartTotal then carts s
                else alter (λ _, 0) userID (carts s)).
Proof.
  unfold CreateOrder. intros H.
  destruct (fails SelCart); [done|].
  destruct (carts s !! userID) as [total|] eqn:Hcart; [|done].
  destruct (fails SelCartItems); [done|].
  destruct (scan_rows _ _ _ _ _) as [items|] eqn:Hscan; [|done].
  apply scan_rows_Some in Hscan. subst items.
  destruct (decide _) as [|Hne]; [done|].
  destruct (fails SelHeart); [done|].
  destruct (users s !! userID) as [h|] eqn:Hh; [|done].
  destruct (fails BeginCreate); [done|].
  destruct (fails InsOrder); [done|].
  destruct (insert_order_items _ _ _ _ _) as [[] s2] eqn:H2; [|done].
  destruct (CreateStockReservationTx _ _ _ _ _ _) as [[] s3] eqn:H3; [|done].
  destruct (fails CommitCreate); [done|].
  injection H as <- <- <-.
  apply insert_order_items_frame in H2. simpl in H2.
  destruct H2 as (Hp2&Hv2&Hu2&Hc2&Hci2&Ho2&Hr2&Hd2&_&Hn2&Hoi2).
  unfold CreateStockReservationTx in H3.
  destruct (fails InsReservation); [done|].
  apply reserve_items_frame in H3. simpl in H3.
  destruct H3 as (Hu3&Hc3&Hci3&Ho3&Hoi3&Hr3&_&_&Hok3).
  destruct Hok3 as (Hd3&Hp3&Hv3); [done|].
  destruct (clear_cart_frame userID s3) as (Hp4&Hv4&Hu4&Ho4&Hoi4&Hr4&Hd4).
  exists total, h. simpl. split_and!; try done.
  - intros Hnil. apply Hne. by rewrite Hnil.
  - by rewrite Ho4, Ho3, Ho2.
  - by rewrite Hoi4, Hoi3, Hoi2.
  - by rewrite Hr4, Hr3, Hr2, Hn2.
  - by rewrite Hd4, Hd3, Hd2, Hn2.
  - split.
    + rewrite Hp4, Hp3. apply decrement_all_same_stock. by split.
    + rewrite Hv4, Hv3. apply decrement_all_same_stock. by split.
  - by rewrite Hu4, Hu3, Hu2.
  - unfold clear_cart.
    destruct (fails DelCartItems), (fails ZeroCartTotal); simpl;
      by rewrite Hci3, Hci2.
  - unfold clear_cart.
    destruct (fails DelCartItems), (fails ZeroCartTotal); simpl;
      by rewrite Hc3, Hc2.
Qed.

(** A CreateOrder either answers 200 or leaves every table as it was. *)
Lemma CreateOrder_created_or_same userID now resNow s :
  (∃ id e, fst (CreateOrder fails userID now resNow s) = OrderCreated id e) ∨
  same_tables (snd (CreateOrder fails userID now resNow s)) s.
Proof.
  unfold CreateOrder.
  repeat (match goal with
          | |- context [match ?x with _ => _ end] => destruct x eqn:?
          end; simpl;
          try (right; first [apply same_tables_refl | apply same_tables_rollback])).
  left. eauto.
Qed.

End Frames.

(** ** CreateOrder *)

Lemma insert_order_items_no_fault orderID items :
  ∀ k s, fst (insert_order_items no_fault orderID k items s) = true.
Proof. induction items as [|item rest IH]; intros k s; simpl; [done|apply IH]. Qed.

Lemma reserve_items_no_fault tempResID items :
  ∀ k s, fst (reserve_items no_fault tempResID k items s) = true.
Proof. induction items as [|item rest IH]; intros k s; simpl; [done|apply IH]. Qed.

Lemma scan_rows_no_fault {A B} (lbl : nat → stmt) (f : A → B) rows :
  ∀ k, scan_rows no_fault lbl f k rows = Some (f <$> rows).
Proof. induction rows as [|row rest IH]; intros k; simpl; [done|by rewrite IH]. Qed.

(** Without store errors, CreateOrder on a non-empty cart of a known user
    answers 200 whatever the stock columns hold. *)
Lemma CreateOrder_no_fault userID now resNow s total h :
  carts s !! userID = Some total →
  users s !! userID = Some h →
  cart_rows userID s ≠ [] →
  fst (CreateOrder no_fault userID now resNow s)
  = OrderCreated (next_order_id s) (now + duration_of h).
Proof.
  intros Hc Hu Hrows. unfold CreateOrder. simpl.
  rewrite Hc, scan_rows_no_fault.
  destruct (decide _) as [Hlen|_].
  { destruct (cart_rows userID s); [done|discriminate Hlen]. }
  rewrite Hu. unfold CreateStockReservationTx. simpl.
  match goal with
  | |- context [insert_order_items ?f ?o ?k ?l ?s] =>
      pose proof (insert_order_items_no_fault o l k s) as H1;
      destruct (insert_order_items f o k l s) as [ok1 s2]
  end.
  simpl in H1. subst ok1.
  match goal with
  | |- context [reserve_items ?f ?r ?k ?l ?s] =>
      pose proof (reserve_items_no_fault r l k s) as H2;
      destruct (reserve_items f r k l s) as [ok2 s3]
  end.
  simpl in H2. subst ok2. done.
Qed.

(** C1: a createOrder whose line asks for more than the SKU's stock is
    expected to abort with insufficientStock and leave nothing behind.  On
    stock 3 and a cart line of 5 units the handler answers 200: the order, its
    item, the reservation and a detail of 5 units are committed, the cart is
    cleared, and the stock column still reads 3. *)
Theorem CreateOrder_ignores_insufficient_stock :
  let s := shop 3 2 5 in
  let r := CreateOrder no_fault 7 1000 1001 s in
  stock_of (PlainProduct 1) s = Some 3 ∧
  (Quantity <$> (item_of_cart <$> cart_rows 7 s)) = [5] ∧
  fst r = OrderCreated 1 (1000 + 12 * Hour) ∧
  stock_of (PlainProduct 1) (snd r) = Some 3 ∧
  length (orders (snd r)) = 1%nat ∧
  order_items (snd r) = [mkOrderItem 1 1 None 5 10 50] ∧
  temp_stock_details (snd r) = [mkDetail 1 1 None 5] ∧
  cart_items (snd r) = [].
Proof. vm_compute. split_and!; reflexivity. Qed.

(** C5 (as claimed, refuted): with a credit balance of 0 createOrder does
    not fail; it answers 200 with a deadline six hours ahead and commits the
    order. *)
Lemma CreateOrder_zero_credit_counterexample :
  let s := shop 10 0 5 in
  let r := CreateOrder no_fault 7 1000 1001 s in
  users s !! 7 = Some 0 ∧
  fst r = OrderCreated 1 (1000 + 6 * Hour) ∧
  (o_TimerExpiration <$> orders (snd r)) = [1000 + 6 * Hour] ∧
  stock_of (PlainProduct 1) (snd r) = Some 5.
Proof. vm_compute. split_and!; reflexivity. Qed.

(** The helper CreateStockReservation refuses every balance outside the
    table, which CreateOrder maps to six hours. *)
Lemma CreateStockReservation_rejects_unmapped now hearts :
  hearts ≠ 3 → hearts ≠ 2 → hearts ≠ 1 →
  CreateStockReservation_expiry now hearts = None ∧ duration_of hearts = 6 * Hour.
Proof.
  intros H3 H2 H1. unfold CreateStockReservation_expiry, duration_of.
  by repeat case_decide.
Qed.

(** C5 (amended): createOrder sizes the order's deadline as a function of
    the caller's credit alone: 3 gives 24h, 2 gives 12h, 1 gives 6h and every
    other balance, 0 and below included, gives the default 6h; no balance
    makes it fail. *)
Theorem CreateOrder_ttl_by_credit userID now resNow s total h :
  carts s !! userID = Some total →
  users s !! userID = Some h →
  cart_rows userID s ≠ [] →
  fst (CreateOrder no_fault userID now resNow s)
    = OrderCreated (next_order_id s) (now + duration_of h) ∧
  duration_of 3 = 24 * Hour ∧ duration_of 2 = 12 * Hour ∧
  duration_of 1 = 6 * Hour ∧
  (h ≠ 3 → h ≠ 2 → h ≠ 1 → duration_of h = 6 * Hour).
Proof.
  intros Hc Hu Hrows. split; [by eapply CreateOrder_no_fault|].
  split_and!; try reflexivity.
  intros H3 H2 H1. unfold duration_of. by repeat case_decide.
Qed.

Lemma CreateOrder_ttl_by_credit_witness :
  fst (CreateOrder no_fault 7 1000 1001 (shop 10 0 5))
    = OrderCreated 1 (1000 + duration_of 0) ∧
  duration_of 3 = 24 * Hour ∧ duration_of 2 = 12 * Hour ∧
  duration_of 1 = 6 * Hour ∧
  (0 ≠ 3 → 0 ≠ 2 → 0 ≠ 1 → duration_of 0 = 6 * Hour).
Proof.
  apply (CreateOrder_ttl_by_credit 7 1000 1001 (shop 10 0 5) 50 0).
  - reflexivity.
  - reflexivity.
  - vm_compute. discriminate.
Defined.

(** C3 (as claimed, refuted): the steps of createOrder do not all commit or
    all vanish.  When the DELETE on [cart_items] fails its error is discarded:
    the order, its item, the reservation and the stock decrement commit while
    the cart keeps its line. *)
Lemma CreateOrder_cart_clear_counterexample :
  let s := shop 10 2 5 in
  let r := CreateOrder fail_cart_delete 7 1000 1001 s in
  fst r = OrderCreated 1 (1000 + 12 * Hour) ∧
  length (orders (snd r)) = 1%nat ∧
  temp_stock_details (snd r) = [mkDetail 1 1 None 5] ∧
  stock_of (PlainProduct 1) (snd r) = Some 5 ∧
  cart_items (snd r) = cart_items s ∧ cart_items s ≠ [].
Proof. vm_compute. split_and!; try reflexivity. discriminate. Qed.

(** C3 (amended): createOrder either answers with an error and leaves every
    table (orders, order items, reservations, details, stock, carts) exactly
    as it was, or answers 200 having committed the order row, one order item
    and one reservation detail per cart line, the reservation header and the
    conditional stock decrements together; the two cart-clearing statements
    are the only ones whose failure does not abort it. *)
Theorem CreateOrder_all_or_nothing fails userID now resNow s :
  let r := CreateOrder fails userID now resNow s in
  ((∀ id e, fst r ≠ OrderCreated id e) ∧ same_tables (snd r) s) ∨
  (∃ id e total,
     let items := item_of_cart <$> cart_rows userID s in
     fst r = OrderCreated id e ∧
     orders (snd r) = orders s ++
       [mkOrder id userID (Some userID) "waitToBuy" total e now now] ∧
     order_items (snd r) = order_items s ++ (order_item_of id <$> items) ∧
     temp_stock_reservations (snd r) = temp_stock_reservations s ++
       [mkReservation (next_reservation_id s) userID id resNow resNow] ∧
     temp_stock_details (snd r) = temp_stock_details s ++
       (detail_of (next_reservation_id s) <$> items) ∧
     same_stock (snd r) (decrement_all items s) ∧
     cart_items (snd r) = (if fails DelCartItems then cart_items s
                           else filter (λ ci, ci_CartID ci ≠ userID) (cart_items s)) ∧
     carts (snd r) = (if fails ZeroCartTotal then carts s
                      else alter (λ _, 0) userID (carts s))).
Proof.
  intros r. subst r.
  destruct (CreateOrder_created_or_same fails userID now resNow s) as [(id&e&Hr)|Hsame].
  - right.
    destruct (CreateOrder fails userID now resNow s) as [r s'] eqn:E.
    simpl in Hr. subst r.
    apply CreateOrder_created in E.
    destruct E as (total&h&_&_&_&_&_&Ho&Hoi&Hres&Hd&Hst&_&Hci&Hc).
    exists id, e, total. simpl. split_and!; done.
  - destruct (CreateOrder fails userID now resNow s) as [r s'] eqn:E.
    destruct r; try (left; split; [intros ? ?; discriminate|exact Hsame]).
    right. apply CreateOrder_created in E.
    destruct E as (total&h&_&_&_&_&_&Ho&Hoi&Hres&Hd&Hst&_&Hci&Hc).
    exists order_id, expired_at, total. simpl. split_and!; done.
Qed.

(** ** The reservation's own deadline *)

(** The deadline createOrder grants is 24h, 12h or 6h after the creation,
    and never less than 6h. *)
Lemma duration_of_table h :
  (h = 3 → duration_of h = 86400000000000) ∧
  (h = 2 → duration_of h = 43200000000000) ∧
  (h = 1 → duration_of h = 21600000000000) ∧
  21600000000000 ≤ duration_of h ≤ 86400000000000.
Proof.
  unfold duration_of, Hour.
  repeat case_decide; subst; split_and!; intros; try done; lia.
Qed.

(** C10: the reservation row a successful createOrder writes has
    [expired_at] equal to [reserved_at], the instant it was created, while
    the order's [timer_expiration] is the creation time plus the
    credit-derived duration: 24h, 12h or 6h (in nanoseconds, as
    [time.Duration] counts), and never less than 6h.  So at every instant
    from the reservation's creation until 6h after the order's, the order is
    in its table as [waitToBuy] and not overdue, while every detail of its
    reservation is already among the rows the expired-reservation query of
    CleanExpiredReservations selects. *)
Theorem CreateOrder_reservation_already_expired
    fails userID now resNow s id e s' :
  CreateOrder fails userID now resNow s = (OrderCreated id e, s') →
  ∃ h r o,
    users s !! userID = Some h ∧
    temp_stock_reservations s' = temp_stock_reservations s ++ [r] ∧
    r_OrderID r = id ∧ r_ReservedAt r = resNow ∧ r_ExpiredAt r = resNow ∧
    orders s' = orders s ++ [o] ∧
    o_ID o = id ∧ o_Status o = "waitToBuy" ∧ o_TimerExpiration o = e ∧
    (h = 3 → e = now + 86400000000000) ∧
    (h = 2 → e = now + 43200000000000) ∧
    (h = 1 → e = now + 21600000000000) ∧
    now + 21600000000000 ≤ e ∧
    cart_rows userID s ≠ [] ∧
    ∀ t, resNow ≤ t → t ≤ now + 21600000000000 →
      (∀ ci, ci ∈ cart_rows userID s →
         (r, detail_of (r_ID r) (item_of_cart ci)) ∈ expired_reservation_rows t s') ∧
      r_ExpiredAt r ≤ t ∧
      o ∈ orders s' ∧ ¬ is_overdue t o ∧ t ≤ o_TimerExpiration o.
Proof.
  intros E. apply CreateOrder_created in E.
  destruct E as (total&h&Hc&Hu&Hne&Hid&He&Ho&Hoi&Hres&Hd&_).
  destruct (duration_of_table h) as (H3&H2&H1&Hlo&_).
  exists h, (mkReservation (next_reservation_id s) userID id resNow resNow),
    (mkOrder id userID (Some userID) "waitToBuy" total e now now).
  simpl. split_and!; try done.
  - intros ->. rewrite He. by rewrite H3.
  - intros ->. rewrite He. by rewrite H2.
  - intros ->. rewrite He. by rewrite H1.
  - lia.
  - intros Hnil. apply Hne. by rewrite Hnil.
  - intros t Ht Hle. split_and!.
    + intros ci Hci. unfold expired_reservation_rows.
      apply list_elem_of_bind.
      exists (detail_of (next_reservation_id s) (item_of_cart ci)).
      split; [|rewrite Hd].
      2:{ apply elem_of_app. right.
          apply list_elem_of_fmap_2, list_elem_of_fmap_2, Hci. }
      apply list_elem_of_fmap. eexists. split; [reflexivity|].
      apply list_elem_of_filter. split.
      * simpl. split; [done|lia].
      * rewrite Hres. apply elem_of_app. right. by apply list_elem_of_singleton.
    + done.
    + rewrite Ho. apply elem_of_app. right. by apply list_elem_of_singleton.
    + intros [_ Hlt]. simpl in Hlt. lia.
    + lia.
Qed.

Lemma CreateOrder_reservation_already_expired_witness :
  let s' := snd (CreateOrder no_fault 7 1000 1001 (shop 10 2 5)) in
  ∃ r o,
    temp_stock_reservations s' = [r] ∧ r_ExpiredAt r = 1001 ∧
    orders s' = [o] ∧ o_Status o = "waitToBuy" ∧
    o_TimerExpiration o = 1000 + 43200000000000 ∧
    (r, mkDetail (r_ID r) 1 None 5) ∈ expired_reservation_rows 1001 s' ∧
    ¬ is_overdue 1001 o.
Proof.
  destruct (CreateOrder_reservation_already_expired no_fault 7 1000 1001
              (shop 10 2 5) 1 (1000 + 12 * Hour)
              (snd (CreateOrder no_fault 7 1000 1001 (shop 10 2 5))))
    as (h&r&o&_&Hr&_&_&Hexp&Ho&_&Hst&He&_&_&_&_&_&Hwin).
  { vm_compute. reflexivity. }
  destruct (Hwin 1001) as (Hsel&_&_&Hnot&_); [lia|lia|].
  exists r, o. split_and!; try done.
  apply (Hsel (mkCartItem 7 1 None 5 10 50)). vm_compute. left.
Defined.

(** ** CancelOrder *)

Section Cancel.

Context (fails : stmt → bool).

Lemma ReturnStockToInventoryTx_frame items :
  ∀ k s ok s', ReturnStockToInventoryTx fails k items s = (ok, s') →
    users s' = users s ∧ carts s' = carts s ∧ cart_items s' = cart_items s ∧
    orders s' = orders s ∧ order_items s' = order_items s ∧
    temp_stock_reservations s' = temp_stock_reservations s ∧
    temp_stock_details s' = temp_stock_details s ∧
    (ok = true → same_stock s' (increment_all items s)).
Proof.
  induction items as [|item rest IH]; intros k s ok s'; simpl.
  - intros [= <- <-]. split_and!; done.
  - destruct (fails (IncStock k)).
    { intros [= <- <-]. split_and!; done. }
    intros H. apply IH in H. autorewrite with frame in H. done.
Qed.

Lemma GetOrderItems_Some orderID s items :
  GetOrderItems fails orderID s = Some items →
  items = filter (λ it, OrderID it = orderID) (order_items s).
Proof.
  unfold GetOrderItems. destruct (fails SelOrderItems); [done|].
  destruct (scan_rows _ _ _ _ _) as [l|] eqn:E; [|done].
  destruct (fails OrderItemsErr); [done|].
  intros [= <-]. apply scan_rows_Some in E. by rewrite list_fmap_id in E.
Qed.

(** Everything a successful CancelOrder did. *)
Lemma CancelOrder_canceled userID orderID now s s' :
  CancelOrder fails userID orderID now s = (OrderCanceled, s') →
  ∃ order,
    head (filter (λ o, o_ID o = orderID) (orders s)) = Some order ∧
    o_UserID order = userID ∧ o_Status order = "waitToBuy" ∧
    orders s' = set_status_at orderID "canceled" now <$> orders s ∧
    temp_stock_reservations s'
      = filter (λ r, r_OrderID r ≠ orderID) (temp_stock_reservations s) ∧
    temp_stock_details s'
      = filter (λ d, d_TempReservationID d ∉ reservation_ids_of orderID s)
               (temp_stock_details s) ∧
    same_stock s'
      (increment_all (filter (λ it, OrderID it = orderID) (order_items s)) s) ∧
    users s' = users s ∧ carts s' = carts s ∧ cart_items s' = cart_items s ∧
    order_items s' = order_items s.
Proof.
  unfold CancelOrder. intros H.
  destruct (fails SelOrder); [done|].
  destruct (head _) as [order|] eqn:Hhead; [|done].
  destruct (decide (o_UserID order ≠ userID)) as [|Hown]; [done|].
  destruct (decide (o_Status order ≠ "waitToBuy")) as [|Hst]; [done|].
  destruct (GetOrderItems fails orderID s) as [items|] eqn:Hitems; [|done].
  apply GetOrderItems_Some in Hitems. subst items.
  destruct (fails BeginCancel); [done|].
  destruct (fails UpdCanceled); [done|].
  unfold DeleteStockReservationTx in H.
  destruct (fails DelDetailsTx); [done|].
  destruct (fails DelReservationTx); [done|].
  destruct (ReturnStockToInventoryTx _ _ _ _) as [[] s3] eqn:H3; [|done].
  destruct (fails CommitCancel); [done|].
  injection H as <-.
  apply ReturnStockToInventoryTx_frame in H3. simpl in H3.
  destruct H3 as (Hu&Hc&Hci&Ho&Hoi&Hr&Hd&Hstock).
  exists order. split_and!; try done.
  - by destruct (decide (o_UserID order = userID)).
  - by destruct (decide (o_Status order = "waitToBuy")).
  - destruct Hstock as [Hp Hv]; [done|].
    split; [rewrite Hp|rewrite Hv]; by apply increment_all_same_stock.
Qed.

(** A CancelOrder either answers 200 or leaves every table as it was. *)
Lemma CancelOrder_canceled_or_same userID orderID now s :
  fst (CancelOrder fails userID orderID now s) = OrderCanceled ∨
  (fst (CancelOrder fails userID orderID now s) ≠ OrderCanceled ∧
   same_tables (snd (CancelOrder fails userID orderID now s)) s).
Proof.
  unfold CancelOrder.
  repeat (match goal with
          | |- context [match ?x with _ => _ end] => destruct x eqn:?
          end; simpl;
          try (right; split; [discriminate|];
               first [apply same_tables_refl | apply same_tables_rollback])).
  by left.
Qed.

End Cancel.

Lemma o_ID_set_status_at orderID st now o :
  o_ID (set_status_at orderID st now o) = o_ID o.
Proof. unfold set_status_at. by case_decide. Qed.









(** ** Expiry sweep *)

Section Sweep.

Context (fails : stmt → bool).

Lemma revert_stock_frame i stockDetails :
  ∀ k s ok s', revert_stock fails i k stockDetails s = (ok, s') →
    users s' = users s ∧ carts s' = carts s ∧ cart_items s' = cart_items s ∧
    orders s' = orders s ∧ order_items s' = order_items s ∧
    temp_stock_reservations s' = temp_stock_reservations s ∧
    temp_stock_details s' = temp_stock_details s ∧
    next_order_id s' = next_order_id s ∧
    next_reservation_id s' = next_reservation_id s ∧
    (ok = true → same_stock s' (increment_all stockDetails s)).
Proof.
  induction stockDetails as [|detail rest IH]; intros k s ok s'; simpl.
  - intros [= <- <-]. split_and!; done.
  - destruct (fails (IncRevertStock i k)).
    { intros [= <- <-]. split_and!; done. }
    intros H. apply IH in H. autorewrite with frame in H. done.
Qed.

(** Closes the branches in which a transaction was not committed. *)
Ltac undone :=
  split; [split; reflexivity
         |left; first [apply same_tables_refl | apply same_tables_rollback]].

(** The per-order transaction of the sweep either undoes itself or deletes
    the order's reservation with its details and releases every detail's
    quantity; it never touches orders or users. *)
Lemma DeleteStockReservationAndReturn_cases i orderID s :
  let s' := DeleteStockReservationAndReturn fails i orderID s in
  (orders s' = orders s ∧ users s' = users s) ∧
  (same_tables s' s ∨
   (temp_stock_reservations s'
      = filter (λ r, r_OrderID r ≠ orderID) (temp_stock_reservations s) ∧
    temp_stock_details s'
      = filter (λ d, d_TempReservationID d ∉ reservation_ids_of orderID s)
               (temp_stock_details s) ∧
    same_stock s' (increment_all (detail_item <$> revert_rows orderID s) s) ∧
    carts s' = carts s ∧ cart_items s' = cart_items s ∧
    order_items s' = order_items s)).
Proof.
  unfold DeleteStockReservationAndReturn.
  destruct (fails (BeginRevert i)); [undone|].
  destruct (fails (SelRevertDetails i)); [undone|].
  destruct (scan_rows _ _ _ _ _) as [stockDetails|] eqn:Hscan;
    [|undone].
  apply scan_rows_Some in Hscan. subst stockDetails.
  destruct (fails (DelRevertDetails i)); [undone|].
  destruct (fails (DelRevertReservation i)); [undone|].
  destruct (revert_stock _ _ _ _ _) as [ok s3] eqn:H3.
  apply revert_stock_frame in H3. simpl in H3.
  destruct H3 as (Hu&Hc&Hci&Ho&Hoi&Hr&Hd&_&_&Hstock).
  destruct ok; [|undone].
  destruct (fails (CommitRevert i)); [undone|].
  simpl. split; [done|]. right. split_and!; try done.
  destruct Hstock as [Hp Hv]; [done|].
  split; [rewrite Hp|rewrite Hv]; by apply increment_all_same_stock.
Qed.

End Sweep.

Lemma filter_none {A} (P : A → Prop) `{∀ x, Decision (P x)} (l : list A) :
  (∀ x, x ∈ l → ¬ P x) → filter P l = [].
Proof.
  intros Hall. induction l as [|x l IH]; [done|].
  rewrite filter_cons_False by (apply Hall; by left).
  apply IH. intros y Hy. apply Hall. by right.
Qed.

(** Three columns never go into two destinations: the scan of
    CheckAndExpireOrders returns an error on every row, whatever the store
    answers. *)
Lemma scan_error_expired fails l : scan_error fails 3 2 l = true.
Proof. unfold scan_error. by destruct (fails l). Qed.

(** How a sweep ends: on a failed SELECT, on the Scan of the first overdue
    row, or, when no order is overdue, after a loop that had nothing to do.
    In no case has a statement that writes been sent. *)
Lemma CheckAndExpireOrders_cases fails now s :
  CheckAndExpireOrders fails now s
  = if fails SelExpired then (CheckFailed, s)
    else match filter (is_overdue now) (orders s) with
         | [] => if fails ExpiredErr then (RowsFailed, s) else (Processed, s)
         | _ :: _ => (ScanFailed, s)
         end.
Proof.
  unfold CheckAndExpireOrders. destruct (fails SelExpired); [done|].
  destruct (filter (is_overdue now) (orders s)) as [|o rest]; [done|].
  simpl. by rewrite scan_error_expired.
Qed.


Lemma sweep_with_overdue fails now s o :
  fails SelExpired = false → o ∈ orders s → is_overdue now o →
  CheckAndExpireOrders fails now s = (ScanFailed, s).
Proof.
  intros Hsel Hin Hover. rewrite CheckAndExpireOrders_cases, Hsel.
  destruct (filter (is_overdue now) (orders s)) as [|o' rest] eqn:E; [|done].
  exfalso. assert (o ∈ filter (is_overdue now) (orders s)) as Ho.
  { by apply list_elem_of_filter. }
  rewrite E in Ho. by apply elem_of_nil in Ho.
Qed.

(** C7: the sweep is expected to process every overdue order in a
    transaction of its own and to go on after a failure in one of them.  It
    processes none.  Its query selects three columns and its loop scans each
    row into two destinations, so the Scan of the first overdue row returns
    an error and the handler answers 500 "Failed to scan order data" before
    the loop over the expired orders starts: whatever the store answers to
    the other statements, no order is marked expired, no reservation or
    detail is deleted, no stock is released and no credit is charged. *)
Theorem sweep_processes_no_order fails now s o :
  fails SelExpired = false →
  o ∈ orders s → is_overdue now o →
  let r := CheckAndExpireOrders fails now s in
  fst r = ScanFailed ∧
  orders (snd r) = orders s ∧
  users (snd r) = users s ∧
  temp_stock_reservations (snd r) = temp_stock_reservations s ∧
  temp_stock_details (snd r) = temp_stock_details s ∧
  products (snd r) = products s ∧
  product_variants (snd r) = product_variants s.
Proof.
  intros Hsel Hin Hover r. subst r.
  by rewrite (sweep_with_overdue fails now s o Hsel Hin Hover).
Qed.

Lemma sweep_processes_no_order_witness :
  let late := 3000 + 24 * Hour in
  let r := CheckAndExpireOrders no_fault late (booked2 10) in
  (o_Status <$> orders (booked2 10)) = ["waitToBuy"; "waitToBuy"] ∧
  (o_TimerExpiration <$> orders (booked2 10)) = [1000 + 12 * Hour; 2000 + 24 * Hour] ∧
  fst r = ScanFailed ∧
  orders (snd r) = orders (booked2 10) ∧
  users (snd r) = users (booked2 10) ∧
  temp_stock_reservations (snd r) = temp_stock_reservations (booked2 10) ∧
  temp_stock_details (snd r) = temp_stock_details (booked2 10) ∧
  products (snd r) = products (booked2 10) ∧
  product_variants (snd r) = product_variants (booked2 10).
Proof.
  split; [vm_compute; reflexivity|]. split; [vm_compute; reflexivity|].
  apply (sweep_processes_no_order no_fault (3000 + 24 * Hour) (booked2 10)
           (mkOrder 1 7 (Some 7) "waitToBuy" 20 (1000 + 12 * Hour) 1000 1000)).
  - reflexivity.
  - vm_compute. left.
  - split; [reflexivity|]. vm_compute. reflexivity.
Defined.

(** ** Sweep idempotence *)

(** C8: a second sweep is expected to be a no-op because the first one
    expired the overdue orders and charged their owners once.  The first
    sweep does neither: an order that is overdue stays [waitToBuy], its
    owner's credit is not decremented, and a second sweep (at the same time
    or later) selects the same order again and ends at the same failing Scan,
    again without charging anyone. *)
Theorem sweep_twice_expires_nothing fails fails' now now' s o h :
  fails SelExpired = false → fails' SelExpired = false →
  o ∈ orders s → is_overdue now o → now ≤ now' →
  users s !! o_UserID o = Some h →
  let s1 := snd (CheckAndExpireOrders fails now s) in
  let r2 := CheckAndExpireOrders fails' now' s1 in
  fst (CheckAndExpireOrders fails now s) = ScanFailed ∧
  o ∈ orders s1 ∧ is_overdue now' o ∧
  users s1 !! o_UserID o = Some h ∧
  fst r2 = ScanFailed ∧
  users (snd r2) !! o_UserID o = Some h.
Proof.
  intros Hsel Hsel' Hin Hover Hle Hu s1 r2. subst r2 s1.
  assert (is_overdue now' o) as Hover'.
  { destruct Hover as [Hst Hlt]. split; [done|lia]. }
  rewrite (sweep_with_overdue fails now s o Hsel Hin Hover). simpl.
  rewrite (sweep_with_overdue fails' now' s o Hsel' Hin Hover'). simpl.
  done.
Qed.

Lemma sweep_twice_expires_nothing_witness :
  let s := snd (CreateOrder no_fault 7 1000 1001 (shop 10 2 5)) in
  let o := mkOrder 1 7 (Some 7) "waitToBuy" 50 (1000 + 12 * Hour) 1000 1000 in
  let s1 := snd (CheckAndExpireOrders no_fault (1001 + 12 * Hour) s) in
  let r2 := CheckAndExpireOrders no_fault (1002 + 12 * Hour) s1 in
  orders s = [o] ∧
  fst (CheckAndExpireOrders no_fault (1001 + 12 * Hour) s) = ScanFailed ∧
  o ∈ orders s1 ∧ is_overdue (1002 + 12 * Hour) o ∧
  users s1 !! 7 = Some 2 ∧
  fst r2 = ScanFailed ∧
  users (snd r2) !! 7 = Some 2.
Proof.
  split; [vm_compute; reflexivity|].
  apply (sweep_twice_expires_nothing no_fault no_fault (1001 + 12 * Hour)
           (1002 + 12 * Hour) (snd (CreateOrder no_fault 7 1000 1001 (shop 10 2 5)))
           (mkOrder 1 7 (Some 7) "waitToBuy" 50 (1000 + 12 * Hour) 1000 1000) 2).
  - reflexivity.
  - reflexivity.
  - vm_compute. left.
  - split; [reflexivity|]. vm_compute. reflexivity.
  - vm_compute. discriminate.
  - vm_compute. reflexivity.
Defined.

(** ** The credit penalty *)




(** ** Conservation and overselling *)

(** C4: what a cancel releases is expected to equal what the creation
    subtracted.  On stock 3 and a line of 5 units the creation answers 200
    and subtracts nothing, but records 5 units; the cancel of that order
    adds the 5 recorded units: the stock column ends at 8. *)
Theorem release_exceeds_reserved :
  let s := shop 3 2 5 in
  let r := CreateOrder no_fault 7 1000 1001 s in
  let c := CancelOrder no_fault 7 1 2000 (snd r) in
  stock_of (PlainProduct 1) s = Some 3 ∧
  fst r = OrderCreated 1 (1000 + 12 * Hour) ∧
  stock_of (PlainProduct 1) (snd r) = Some 3 ∧
  (Quantity <$> order_items (snd r)) = [5] ∧
  (d_Quantity <$> temp_stock_details (snd r)) = [5] ∧
  fst c = OrderCanceled ∧
  (o_Status <$> orders (snd c)) = ["canceled"] ∧
  temp_stock_details (snd c) = [] ∧
  stock_of (PlainProduct 1) (snd c) = Some 8.
Proof. vm_compute. split_and!; reflexivity. Qed.

(** C2: the quantities createOrder calls reserve against a SKU are expected
    never to exceed its stock.  On stock 4, an order for 2 units and then an
    order for 3 units both answer 200; the second decrement does not apply,
    so the stock column reads 2 while the reservation details hold 5 units
    against the SKU. *)
Theorem CreateOrder_oversells :
  let s := shop2 4 in
  let r1 := CreateOrder no_fault 7 1000 1001 s in
  let r2 := CreateOrder no_fault 8 2000 2001 (snd r1) in
  stock_of (PlainProduct 1) s = Some 4 ∧
  fst r1 = OrderCreated 1 (1000 + 12 * Hour) ∧
  fst r2 = OrderCreated 2 (2000 + 24 * Hour) ∧
  stock_of (PlainProduct 1) (snd r2) = Some 2 ∧
  reserved_for (PlainProduct 1) (snd r2) = 5 ∧
  (Quantity <$> order_items (snd r2)) = [2; 3].
Proof. vm_compute. split_and!; reflexivity. Qed.

(** ** The stock columns never go negative *)

(** The conditional decrement changes a row only when the row holds at
    least the requested quantity, and then subtracts exactly that. *)
Lemma dec_if_enough_spec q st :
  (q ≤ st ∧ dec_if_enough q st = st - q) ∨ (st < q ∧ dec_if_enough q st = st).
Proof. unfold dec_if_enough. case_decide; [left|right]; split; (done || lia). Qed.

Lemma alter_nonneg (f : Z → Z) (m : gmap Z Z) i :
  (∀ st, 0 ≤ st → 0 ≤ f st) →
  (∀ k st, m !! k = Some st → 0 ≤ st) →
  ∀ k st, alter f i m !! k = Some st → 0 ≤ st.
Proof.
  intros Hf Hm k st. rewrite lookup_alter. case_decide as Hik.
  - subst k. destruct (m !! i) as [st0|] eqn:E; simpl; [|done].
    intros [= <-]. apply Hf. by eapply Hm.
  - apply Hm.
Qed.

Lemma stock_nonneg_decrement p v q s :
  stock_nonneg s → stock_nonneg (decrement_stock p v q s).
Proof.
  intros [Hp Hv]. unfold decrement_stock.
  destruct v; (split; simpl; [|]); try done;
    apply alter_nonneg; try done;
    intros st Hst; destruct (dec_if_enough_spec q st) as [[? ->]|[? ->]]; lia.
Qed.

Lemma stock_nonneg_increment p v q s :
  0 ≤ q → stock_nonneg s → stock_nonneg (increment_stock p v q s).
Proof.
  intros Hq [Hp Hv]. unfold increment_stock.
  destruct v; (split; simpl; [|]); try done;
    apply alter_nonneg; try done; intros st Hst; lia.
Qed.

Lemma stock_nonneg_decrement_all items :
  ∀ s, stock_nonneg s → stock_nonneg (decrement_all items s).
Proof.
  induction items as [|item rest IH]; intros s Hs; simpl; [done|].
  by apply IH, stock_nonneg_decrement.
Qed.

Lemma stock_nonneg_increment_all items :
  Forall (λ it, 0 ≤ Quantity it) items →
  ∀ s, stock_nonneg s → stock_nonneg (increment_all items s).
Proof.
  induction 1 as [|item rest Hq _ IH]; intros s Hs; simpl; [done|].
  by apply IH, stock_nonneg_increment.
Qed.

Lemma stock_nonneg_same_stock a b :
  same_stock a b → stock_nonneg b → stock_nonneg a.
Proof. intros [Hp Hv] [Hbp Hbv]. split; [rewrite Hp|rewrite Hv]; done. Qed.

Lemma ledger_inv_same_tables a b :
  same_tables a b → ledger_inv b → ledger_inv a.
Proof.
  intros (Hp&Hv&_&_&Hci&_&Hoi&_&Hd) [[Hbp Hbv] (Hq1&Hq2&Hq3)].
  split; [split; [rewrite Hp|rewrite Hv]; done|].
  split_and!; [rewrite Hci|rewrite Hoi|rewrite Hd]; done.
Qed.

Lemma Forall_filter_keep {A} (P Q : A → Prop) `{∀ x, Decision (Q x)} (l : list A) :
  Forall P l → Forall P (filter Q l).
Proof.
  rewrite !Forall_forall. intros Hl x [_ Hx]%list_elem_of_filter. by apply Hl.
Qed.

Lemma ledger_inv_CreateOrder fails userID now resNow s :
  ledger_inv s → ledger_inv (snd (CreateOrder fails userID now resNow s)).
Proof.
  intros Hinv.
  destruct (CreateOrder_created_or_same fails userID now resNow s)
    as [(id&e&Hr)|Hsame]; [|by eapply ledger_inv_same_tables].
  destruct (CreateOrder fails userID now resNow s) as [r s'] eqn:E.
  simpl in Hr. subst r. simpl.
  apply CreateOrder_created in E.
  destruct E as (total&h&_&_&_&_&_&_&Hoi&_&Hd&Hst&_&Hci&_).
  destruct Hinv as [Hstock (Hq1&Hq2&Hq3)].
  assert (Forall (λ it, 0 ≤ Quantity it) (item_of_cart <$> cart_rows userID s))
    as Hitems.
  { apply Forall_fmap. by apply Forall_filter_keep. }
  split.
  - eapply stock_nonneg_same_stock; [exact Hst|].
    by apply stock_nonneg_decrement_all.
  - split_and!.
    + rewrite Hci. destruct (fails DelCartItems); [done|].
      by apply Forall_filter_keep.
    + rewrite Hoi. apply Forall_app. split; [done|]. by apply Forall_fmap.
    + rewrite Hd. apply Forall_app. split; [done|]. by apply Forall_fmap.
Qed.

Lemma ledger_inv_CancelOrder fails userID orderID now s :
  ledger_inv s → ledger_inv (snd (CancelOrder fails userID orderID now s)).
Proof.
  intros Hinv.
  destruct (CancelOrder_canceled_or_same fails userID orderID now s)
    as [Hr|[_ Hsame]]; [|by eapply ledger_inv_same_tables].
  destruct (CancelOrder fails userID orderID now s) as [r s'] eqn:E.
  simpl in Hr. subst r. simpl.
  apply CancelOrder_canceled in E.
  destruct E as (order&_&_&_&_&_&Hd&Hst&_&_&Hci&Hoi).
  destruct Hinv as [Hstock (Hq1&Hq2&Hq3)].
  split.
  - eapply stock_nonneg_same_stock; [exact Hst|].
    apply stock_nonneg_increment_all; [|done]. by apply Forall_filter_keep.
  - split_and!; [by rewrite Hci|by rewrite Hoi|].
    rewrite Hd. by apply Forall_filter_keep.
Qed.

Lemma ledger_inv_revert fails i orderID s :
  ledger_inv s → ledger_inv (DeleteStockReservationAndReturn fails i orderID s).
Proof.
  intros Hinv.
  destruct (DeleteStockReservationAndReturn_cases fails i orderID s)
    as [_ [Hsame|(_&Hd&Hst&_&Hci&Hoi)]]; [by eapply ledger_inv_same_tables|].
  destruct Hinv as [Hstock (Hq1&Hq2&Hq3)].
  split.
  - eapply stock_nonneg_same_stock; [exact Hst|].
    apply stock_nonneg_increment_all; [|done].
    apply Forall_fmap. unfold revert_rows. apply Forall_bind.
    eapply Forall_impl; [exact Hq3|]. intros d Hdq. simpl.
    apply Forall_fmap. apply Forall_forall. by intros.
  - split_and!; [by rewrite Hci|by rewrite Hoi|].
    rewrite Hd. by apply Forall_filter_keep.
Qed.

Lemma ledger_inv_expire_loop fails expiredOrders :
  ∀ i s, ledger_inv s → ledger_inv (snd (expire_loop fails i expiredOrders s)).
Proof.
  induction expiredOrders as [|[orderID userID] rest IH]; intros i s Hinv; simpl;
    [done|].
  destruct (fails (UpdExpired i)); [done|].
  destruct (fails (DecHearts i)); [done|].
  by apply IH, ledger_inv_revert.
Qed.

Lemma ledger_inv_sweep fails now s :
  ledger_inv s → ledger_inv (snd (CheckAndExpireOrders fails now s)).
Proof.
  intros Hinv. unfold CheckAndExpireOrders.
  destruct (fails SelExpired); [done|].
  destruct (scan_rows _ _ _ _ _); [|done].
  destruct (fails ExpiredErr); [done|].
  by apply ledger_inv_expire_loop.
Qed.

(** Whatever requests are served, in whatever order and with whatever
    store errors, no stock column goes below zero (quantities in carts are
    validated to be positive when a line is added). *)
Lemma stock_never_negative (requests : list request) (s : DB) :
  ledger_inv s → stock_nonneg (foldl serve s requests).
Proof.
  intros Hinv. cut (ledger_inv (foldl serve s requests)); [by intros [? _]|].
  revert s Hinv. induction requests as [|q rest IH]; intros s Hinv; simpl; [done|].
  apply IH. destruct q; simpl.
  - by apply ledger_inv_CreateOrder.
  - by apply ledger_inv_CancelOrder.
  - by apply ledger_inv_sweep.
Qed.

(** ** When every decrement applies, a cancel gives back what was taken *)

Lemma alter_alter_comm (f g : Z → Z) (m : gmap Z Z) i j :
  (∀ x, f (g x) = g (f x)) →
  alter f i (alter g j m) = alter g j (alter f i m).
Proof.
  intros Hfg. apply map_eq. intros k.
  destruct (decide (i = k)) as [->|Hik], (decide (j = k)) as [->|Hjk].
  - rewrite !lookup_alter_eq. destruct (m !! k); simpl; [by rewrite Hfg|done].
  - rewrite lookup_alter_eq, !lookup_alter_ne by done.
    by rewrite lookup_alter_eq.
  - rewrite lookup_alter_ne by done. rewrite !lookup_alter_eq.
    by rewrite lookup_alter_ne by done.
  - by rewrite !lookup_alter_ne by done.
Qed.

Lemma increment_stock_comm p v q p' v' q' s :
  increment_stock p v q (increment_stock p' v' q' s)
  = increment_stock p' v' q' (increment_stock p v q s).
Proof.
  unfold increment_stock.
  destruct v, v'; unfold set_products, set_product_variants; simpl; f_equal;
    apply alter_alter_comm; intros; lia.
Qed.

Lemma increment_all_comm p v q items :
  ∀ s, increment_all items (increment_stock p v q s)
       = increment_stock p v q (increment_all items s).
Proof.
  induction items as [|item rest IH]; intros s; simpl; [done|].
  by rewrite <- IH, increment_stock_comm.
Qed.

Lemma alter_inc_dec (q : Z) (m : gmap Z Z) i :
  (∀ st, m !! i = Some st → q ≤ st) →
  alter (λ st, st + q) i (alter (dec_if_enough q) i m) = m.
Proof.
  intros Hq. apply map_eq. intros k.
  destruct (decide (i = k)) as [->|Hik]; [|by rewrite !lookup_alter_ne by done].
  rewrite !lookup_alter_eq.
  destruct (m !! k) as [st|] eqn:E; simpl; [|done].
  f_equal. unfold dec_if_enough. rewrite decide_True by by apply Hq. lia.
Qed.

Lemma increment_decrement_stock p v q s :
  (∀ st, stock_of (sku_of p v) s = Some st → q ≤ st) →
  same_stock (increment_stock p v q (decrement_stock p v q s)) s.
Proof.
  intros Hq. unfold increment_stock, decrement_stock, same_stock.
  destruct v; simpl in *; rewrite alter_inc_dec; done.
Qed.

Lemma increment_all_decrement_all items :
  ∀ s, decrements_apply items s →
       same_stock (increment_all items (decrement_all items s)) s.
Proof.
  induction items as [|item rest IH]; intros s Happ; simpl; [done|].
  destruct Happ as [Hq Hrest].
  rewrite increment_all_comm.
  specialize (IH _ Hrest).
  pose proof (increment_all_same_stock [item] _ _ IH) as H1. simpl in H1.
  pose proof (increment_decrement_stock _ _ _ s Hq) as [Hp Hv].
  destruct H1 as [Hp1 Hv1]. split; congruence.
Qed.

Lemma increment_all_order_item_of orderID items :
  ∀ s, increment_all (order_item_of orderID <$> items) s = increment_all items s.
Proof. induction items as [|item rest IH]; intros s; simpl; [done|apply IH]. Qed.

Lemma filter_order_item_of orderID (items : list OrderItemModel) :
  filter (λ it, OrderID it = orderID) (order_item_of orderID <$> items)
  = order_item_of orderID <$> items.
Proof.
  induction items as [|item rest IH]; [done|].
  rewrite fmap_cons, filter_cons_True by done. by rewrite IH.
Qed.

(** If every conditional decrement of a createOrder applied (each line
    asked for no more than its SKU then held), the cancel of that order
    returns every stock column to its value before the order. *)
Lemma cancel_restores_applied_decrements
    fails fails' userID now resNow now' s id e s1 s2 :
  (∀ it, it ∈ order_items s → OrderID it ≠ next_order_id s) →
  decrements_apply (item_of_cart <$> cart_rows userID s) s →
  CreateOrder fails userID now resNow s = (OrderCreated id e, s1) →
  CancelOrder fails' userID id now' s1 = (OrderCanceled, s2) →
  same_stock s2 s.
Proof.
  intros Hfresh Happ Hc Hx.
  apply CreateOrder_created in Hc.
  destruct Hc as (total&h&_&_&_&Hid&_&_&Hoi&_&_&[Hp1 Hv1]&_).
  apply CancelOrder_canceled in Hx.
  destruct Hx as (order&_&_&_&_&_&_&[Hp2 Hv2]&_).
  rewrite Hoi, filter_app, filter_order_item_of in Hp2, Hv2.
  rewrite (filter_none (λ it, OrderID it = id)) in Hp2, Hv2
    by (intros it Hin; subst id; by apply Hfresh).
  simpl in Hp2, Hv2. rewrite increment_all_order_item_of in Hp2, Hv2.
  pose proof (increment_all_same_stock (item_of_cart <$> cart_rows userID s)
                s1 (decrement_all (item_of_cart <$> cart_rows userID s) s)
                (conj Hp1 Hv1)) as [Hp3 Hv3].
  pose proof (increment_all_decrement_all _ s Happ) as [Hp4 Hv4].
  split; congruence.
Qed.

(** * Further properties of the engine *)

(** ** The placeholder list of CleanExpiredReservations *)

Lemma Split_not_nil sep s : Split sep s ≠ [].
Proof.
  destruct s as [|c rest]; simpl; [done|].
  destruct (Ascii.eqb c sep); [done|]. by destruct (Split sep rest).
Qed.

Lemma Join_String c piece pieces sep :
  Join (String c piece :: pieces) sep = String c (Join (piece :: pieces) sep).
Proof. by destruct pieces. Qed.

(** Joining the pieces of a split with the separator gives the string back. *)
Lemma Join_Split sep s : Join (Split sep s) (String sep EmptyString) = s.
Proof.
  induction s as [|c rest IH]; simpl; [done|].
  destruct (Ascii.eqb c sep) eqn:E.
  - apply Ascii.eqb_eq in E. subst c.
    pose proof (Split_not_nil sep rest) as Hne.
    destruct (Split sep rest) as [|piece pieces]; [done|].
    simpl in *. by rewrite IH.
  - pose proof (Split_not_nil sep rest) as Hne.
    destruct (Split sep rest) as [|piece pieces]; [done|].
    by rewrite Join_String, IH.
Qed.

Lemma append_assoc_string (a b c : string) :
  String.append (String.append a b) c = String.append a (String.append b c).
Proof.
  induction a as [|x a IH]; [done|].
  change (String x (String.append (String.append a b) c)
          = String x (String.append a (String.append b c))).
  by rewrite IH.
Qed.

Lemma Repeat_snoc s n : Repeat s (S n) = String.append (Repeat s n) s.
Proof.
  induction n as [|n IH].
  - change (String.append s EmptyString = s).
    induction s as [|x s IHs]; [done|].
    change (String x (String.append s EmptyString) = String x s).
    by rewrite IHs.
  - change (Repeat s (S (S n))) with (String.append s (Repeat s (S n))).
    rewrite IH at 1. by rewrite <- append_assoc_string.
Qed.

(** X1: the Split/Join round trip changes nothing, so the placeholder list
    built for n reservation ids is n copies of [?,]: it keeps the trailing
    comma of [strings.Repeat]. *)
Theorem placeholder_keeps_trailing_comma n :
  placeholder n = Repeat "?," n ∧
  placeholder (S n) = String.append (placeholder n) "?,".
Proof.
  unfold placeholder. rewrite !Join_Split. split; [done|].
  apply Repeat_snoc.
Qed.

(** ** Cart totals *)

(** X2: adding an amount to a cart total and subtracting it again gives
    the total back exactly when the total was not negative (the subtraction
    clamps at zero); other carts are not touched. *)
Theorem add_then_subtract_total cartID amount s t :
  carts s !! cartID = Some t →
  let s' := snd (SubtractFromCartTotalPrice no_fault_aux cartID amount
                   (snd (AddToCartTotalPrice no_fault_aux cartID amount s))) in
  carts s' !! cartID = Some (Z.max 0 t) ∧
  (∀ other, other ≠ cartID → carts s' !! other = carts s !! other).
Proof.
  intros Ht s'. subst s'. simpl. split.
  - rewrite !lookup_alter_eq, Ht. simpl. f_equal. lia.
  - intros other Hne. by rewrite !lookup_alter_ne by done.
Qed.

Lemma add_then_subtract_total_witness :
  carts (snd (SubtractFromCartTotalPrice no_fault_aux 7 30
                (snd (AddToCartTotalPrice no_fault_aux 7 30 (shop 10 2 5))))) !! 7
  = Some (Z.max 0 50).
Proof.
  exact (proj1 (add_then_subtract_total 7 30 (shop 10 2 5) 50 eq_refl)).
Defined.

(** X3: subtracting an amount and adding it back, which is how
    DeleteCartItem and UpdateCartItemQuantity compensate a failed
    statement, gives [max total amount]: the total comes back only when it
    was at least the amount; and after a subtraction alone the total is
    never negative. *)
Theorem subtract_then_add_total cartID amount s t :
  carts s !! cartID = Some t →
  carts (snd (SubtractFromCartTotalPrice no_fault_aux cartID amount s)) !! cartID
    = Some (Z.max 0 (t - amount)) ∧
  carts (snd (AddToCartTotalPrice no_fault_aux cartID amount
                (snd (SubtractFromCartTotalPrice no_fault_aux cartID amount s))))
    !! cartID = Some (Z.max t amount).
Proof.
  intros Ht. simpl. rewrite !lookup_alter_eq, Ht. simpl.
  split; f_equal; lia.
Qed.

Lemma subtract_then_add_total_witness :
  carts (snd (SubtractFromCartTotalPrice no_fault_aux 7 80 (shop 10 2 5))) !! 7
    = Some (Z.max 0 (50 - 80)) ∧
  carts (snd (AddToCartTotalPrice no_fault_aux 7 80
                (snd (SubtractFromCartTotalPrice no_fault_aux 7 80 (shop 10 2 5)))))
    !! 7 = Some (Z.max 50 80).
Proof.
  exact (subtract_then_add_total 7 80 (shop 10 2 5) 50 eq_refl).
Defined.

(** ** The helpers that open their own transaction *)

Section OwnTransaction.

Context (fails : stmt_aux → bool).

Lemma release_with_ok {L} (flt : L → bool) (lbl : nat → L) items :
  ∀ k s s', release_with flt lbl k items s = (true, s') → s' = increment_all items s.
Proof.
  induction items as [|item rest IH]; intros k s s'; simpl.
  - by intros [= <-].
  - destruct (flt (lbl k)); [done|]. apply IH.
Qed.

Lemma reserve_items_own_ok reservationID items :
  ∀ k s s', reserve_items_own fails reservationID k items s = (true, s') →
    users s' = users s ∧ carts s' = carts s ∧ cart_items s' = cart_items s ∧
    orders s' = orders s ∧ order_items s' = order_items s ∧
    temp_stock_reservations s' = temp_stock_reservations s ∧
    temp_stock_details s'
      = temp_stock_details s ++ (detail_of reservationID <$> items) ∧
    same_stock s' (decrement_all items s).
Proof.
  induction items as [|item rest IH]; intros k s s'; simpl.
  - intros [= <-]. rewrite app_nil_r. by split_and!.
  - destruct (fails (ADecStock k)); [done|].
    destruct (fails (AInsDetail k)); [done|].
    intros H. apply IH in H. simpl in H. autorewrite with frame in H.
    destruct H as (Hu&Hc&Hci&Ho&Hoi&Hr&Hd&Hst).
    split_and!; try done.
    + rewrite Hd. by rewrite <- app_assoc.
    + destruct Hst as [Hp Hv]. rewrite decrement_all_set_details in Hp, Hv.
      by split.
Qed.

(** Whenever CreateStockReservation returns an error, and whenever its
    Commit fails, no table has changed. *)
Lemma CreateStockReservation_undone now orderID userID items s :
  fst (CreateStockReservation fails now orderID userID items s) ≠ HelperOk
  ∨ fails ACommit = true →
  same_tables (snd (CreateStockReservation fails now orderID userID items s)) s.
Proof.
  unfold CreateStockReservation. intros H.
  repeat (match goal with
          | |- context [match ?x with _ => _ end] => destruct x eqn:?
          end; simpl in *;
          try apply same_tables_refl; try apply same_tables_rollback).
  by destruct H.
Qed.

(** X4: CreateStockReservation is all or nothing, and says so only in
    part: whenever it returns an error, and also whenever its Commit fails,
    every table is as it was before the call. *)
Theorem CreateStockReservation_all_or_nothing now orderID userID items s :
  fst (CreateStockReservation fails now orderID userID items s) ≠ HelperOk
  ∨ fails ACommit = true →
  same_tables (snd (CreateStockReservation fails now orderID userID items s)) s.
Proof. apply CreateStockReservation_undone. Qed.

(** Everything a committed CreateStockReservation wrote. *)
Lemma CreateStockReservation_committed now orderID userID items s s' :
  fails ACommit = false →
  CreateStockReservation fails now orderID userID items s = (HelperOk, s') →
  ∃ h,
    users s !! userID = Some h ∧ (h = 1 ∨ h = 2 ∨ h = 3) ∧
    temp_stock_reservations s' = temp_stock_reservations s ++
      [mkReservation (next_reservation_id s) userID orderID now
                     (now + duration_of h)] ∧
    temp_stock_details s' = temp_stock_details s ++
      (detail_of (next_reservation_id s) <$> items) ∧
    same_stock s' (decrement_all items s) ∧
    users s' = users s ∧ orders s' = orders s ∧ order_items s' = order_items s ∧
    carts s' = carts s ∧ cart_items s' = cart_items s.
Proof.
  intros Hcommit. unfold CreateStockReservation. rewrite Hcommit.
  destruct (fails ABegin); [done|].
  destruct (fails ASelHearts); [done|].
  destruct (users s !! userID) as [h|] eqn:Hh; [|done].
  destruct (CreateStockReservation_expiry now h) as [expiredAt|] eqn:Hexp; [|done].
  destruct (fails AInsReservation); [done|].
  destruct (fails ALastInsertId); [done|].
  destruct (reserve_items_own _ _ _ _ _) as [[] s2] eqn:H2; [|done].
  intros [= <-].
  apply reserve_items_own_ok in H2. simpl in H2.
  destruct H2 as (Hu&Hc&Hci&Ho&Hoi&Hr&Hd&Hst).
  assert ((h = 1 ∨ h = 2 ∨ h = 3) ∧ expiredAt = now + duration_of h) as [Hcase ->].
  { unfold CreateStockReservation_expiry, duration_of in *.
    repeat case_decide; simplify_eq; split; auto. }
  exists h. split_and!; try done.
  destruct Hst as [Hp Hv].
  match type of Hp with
  | _ = products (decrement_all items ?s1) =>
      destruct (decrement_all_same_stock items s1 s (conj eq_refl eq_refl))
        as [Hp' Hv']
  end.
  split; congruence.
Qed.

(** X5: a committed CreateStockReservation gives the reservation a real
    deadline, the creation time plus 24h, 12h or 6h by credit, and until
    that deadline the expired-reservation query does not select it. *)
Theorem CreateStockReservation_sets_deadline now orderID userID items s s' :
  fails ACommit = false →
  CreateStockReservation fails now orderID userID items s = (HelperOk, s') →
  ∃ h r,
    users s !! userID = Some h ∧ (h = 1 ∨ h = 2 ∨ h = 3) ∧
    temp_stock_reservations s' = temp_stock_reservations s ++ [r] ∧
    r_OrderID r = orderID ∧ r_ReservedAt r = now ∧
    r_ExpiredAt r = now + duration_of h ∧
    temp_stock_details s' = temp_stock_details s ++ (detail_of (r_ID r) <$> items) ∧
    same_stock s' (decrement_all items s) ∧
    ∀ t d, t < now + duration_of h → (r, d) ∉ expired_reservation_rows t s'.
Proof.
  intros Hcommit H.
  destruct (CreateStockReservation_committed _ _ _ _ _ _ Hcommit H)
    as (h&Hh&Hcase&Hr&Hd&Hst&_).
  exists h, (mkReservation (next_reservation_id s) userID orderID now
                           (now + duration_of h)).
  simpl. split_and!; try done.
  intros t d Ht Hin. unfold expired_reservation_rows in Hin.
  apply list_elem_of_bind in Hin as (d'&Hin&_).
  apply list_elem_of_fmap in Hin as (r'&Heq&Hin).
  apply list_elem_of_filter in Hin as [[_ Hexp] _].
  injection Heq as <- _. simpl in Hexp. lia.
Qed.

End OwnTransaction.

Lemma CreateStockReservation_sets_deadline_witness :
  ∃ h r,
    users (shop 10 2 5) !! 7 = Some h ∧ (h = 1 ∨ h = 2 ∨ h = 3) ∧
    temp_stock_reservations
      (snd (CreateStockReservation no_fault_aux 1000 9 7
              [mkOrderItem 0 1 None 4 0 0] (shop 10 2 5)))
      = temp_stock_reservations (shop 10 2 5) ++ [r] ∧
    r_OrderID r = 9 ∧ r_ReservedAt r = 1000 ∧
    r_ExpiredAt r = 1000 + duration_of h ∧
    temp_stock_details
      (snd (CreateStockReservation no_fault_aux 1000 9 7
              [mkOrderItem 0 1 None 4 0 0] (shop 10 2 5)))
      = temp_stock_details (shop 10 2 5)
        ++ (detail_of (r_ID r) <$> [mkOrderItem 0 1 None 4 0 0]) ∧
    same_stock
      (snd (CreateStockReservation no_fault_aux 1000 9 7
              [mkOrderItem 0 1 None 4 0 0] (shop 10 2 5)))
      (decrement_all [mkOrderItem 0 1 None 4 0 0] (shop 10 2 5)) ∧
    ∀ t d, t < 1000 + duration_of h →
      (r, d) ∉ expired_reservation_rows t
        (snd (CreateStockReservation no_fault_aux 1000 9 7
                [mkOrderItem 0 1 None 4 0 0] (shop 10 2 5))).
Proof.
  apply (CreateStockReservation_sets_deadline no_fault_aux 1000 9 7
           [mkOrderItem 0 1 None 4 0 0] (shop 10 2 5)); [reflexivity|].
  vm_compute. reflexivity.
Defined.

Lemma reserve_items_own_succeeds fails reservationID items :
  (∀ k, fails (ADecStock k) = false) →
  (∀ k, fails (AInsDetail k) = false) →
  ∀ k s, fst (reserve_items_own fails reservationID k items s) = true.
Proof.
  intros Hdec Hins.
  induction items as [|item rest IH]; intros k s; simpl; [done|].
  rewrite Hdec, Hins. apply IH.
Qed.

(** X6: CreateStockReservation refuses a credit balance outside 1..3 before
    it writes anything, while CreateOrder, for the same user and balance,
    goes ahead with a six-hour deadline. *)
Theorem unmapped_credit_two_policies userID now resNow orderID items s total h :
  users s !! userID = Some h →
  h ≠ 3 → h ≠ 2 → h ≠ 1 →
  carts s !! userID = Some total →
  cart_rows userID s ≠ [] →
  CreateStockReservation no_fault_aux now orderID userID items s
    = (InvalidHeartCount, s) ∧
  fst (CreateOrder no_fault userID now resNow s)
    = OrderCreated (next_order_id s) (now + 6 * Hour).
Proof.
  intros Hh H3 H2 H1 Hc Hrows.
  destruct (CreateStockReservation_rejects_unmapped now h H3 H2 H1) as [Hexp Hdur].
  split.
  - unfold CreateStockReservation. simpl. by rewrite Hh, Hexp.
  - rewrite (CreateOrder_no_fault userID now resNow s total h Hc Hh Hrows).
    by rewrite Hdur.
Qed.

Lemma unmapped_credit_two_policies_witness :
  CreateStockReservation no_fault_aux 1000 9 7 [mkOrderItem 0 1 None 4 0 0]
    (shop 10 0 5) = (InvalidHeartCount, shop 10 0 5) ∧
  fst (CreateOrder no_fault 7 1000 1001 (shop 10 0 5))
    = OrderCreated (next_order_id (shop 10 0 5)) (1000 + 6 * Hour).
Proof.
  apply (unmapped_credit_two_policies 7 1000 1001 9 [mkOrderItem 0 1 None 4 0 0]
           (shop 10 0 5) 50 0); try reflexivity; try lia.
  vm_compute. discriminate.
Defined.

(** X7: when only the Commit of CreateStockReservation fails, the helper
    still returns nil: the caller is told the reservation exists while no
    table has changed. *)
Theorem CreateStockReservation_hides_commit_error now orderID userID items s h :
  users s !! userID = Some h →
  h = 1 ∨ h = 2 ∨ h = 3 →
  fst (CreateStockReservation fail_own_commit now orderID userID items s) = HelperOk ∧
  same_tables (snd (CreateStockReservation fail_own_commit now orderID userID items s)) s.
Proof.
  intros Hh Hcase. split.
  - unfold CreateStockReservation. simpl. rewrite Hh.
    assert (∃ e, CreateStockReservation_expiry now h = Some e) as [e He].
    { unfold CreateStockReservation_expiry.
      destruct Hcase as [-> | [-> | ->]]; simpl; eauto. }
    rewrite He.
    match goal with
    | |- context [reserve_items_own ?f ?r ?k ?l ?s0] =>
        pose proof (reserve_items_own_succeeds f r l (λ _, eq_refl) (λ _, eq_refl) k s0)
          as Hok;
        destruct (reserve_items_own f r k l s0) as [ok s2]
    end.
    simpl in Hok. by subst ok.
  - apply CreateStockReservation_undone. by right.
Qed.

Lemma CreateStockReservation_hides_commit_error_witness :
  fst (CreateStockReservation fail_own_commit 1000 9 7
         [mkOrderItem 0 1 None 4 0 0] (shop 10 2 5)) = HelperOk ∧
  same_tables (snd (CreateStockReservation fail_own_commit 1000 9 7
                      [mkOrderItem 0 1 None 4 0 0] (shop 10 2 5)))
              (shop 10 2 5).
Proof.
  apply (CreateStockReservation_hides_commit_error 1000 9 7
           [mkOrderItem 0 1 None 4 0 0] (shop 10 2 5) 2); [reflexivity|].
  right. left. reflexivity.
Defined.

Lemma CreateStockReservation_all_or_nothing_witness :
  same_tables (snd (CreateStockReservation no_fault_aux 1000 9 7
                      [mkOrderItem 0 1 None 4 0 0] (shop 10 0 5)))
              (shop 10 0 5).
Proof.
  apply (CreateStockReservation_all_or_nothing no_fault_aux 1000 9 7
           [mkOrderItem 0 1 None 4 0 0] (shop 10 0 5)).
  left. vm_compute. discriminate.
Defined.

(** The increments leave every column but the stock alone. *)
Lemma increment_all_frame items :
  ∀ s, users (increment_all items s) = users s ∧
       carts (increment_all items s) = carts s ∧
       cart_items (increment_all items s) = cart_items s ∧
       orders (increment_all items s) = orders s ∧
       order_items (increment_all items s) = order_items s ∧
       temp_stock_reservations (increment_all items s) = temp_stock_reservations s ∧
       temp_stock_details (increment_all items s) = temp_stock_details s.
Proof.
  induction items as [|item rest IH]; intros s; simpl; [done|].
  destruct (IH (increment_stock (ProductID item) (ProductVariantID item)
                                (Quantity item) s)) as (Hu&Hc&Hci&Ho&Hoi&Hr&Hd).
  autorewrite with frame in *. done.
Qed.

Lemma revert_stock_no_fault i stockDetails :
  ∀ k s, revert_stock no_fault i k stockDetails s
         = (true, increment_all stockDetails s).
Proof.
  induction stockDetails as [|d rest IH]; intros k s; simpl; [done|apply IH].
Qed.

Lemma release_with_no_fault {L} (lbl : nat → L) items :
  ∀ k s, release_with (λ _, false) lbl k items s = (true, increment_all items s).
Proof.
  induction items as [|item rest IH]; intros k s; simpl; [done|apply IH].
Qed.

Lemma scan_with_no_fault {L A B} (lbl : nat → L) (f : A → B) rows :
  ∀ k, scan_with (λ _, false) lbl f k rows = Some (f <$> rows).
Proof. induction rows as [|row rest IH]; intros k; simpl; [done|by rewrite IH]. Qed.

(** What DeleteStockReservation does when the store reports no error. *)
Lemma DeleteStockReservation_no_fault orderID s :
  DeleteStockReservation no_fault_aux orderID s
  = (HelperOk,
     delete_reservations_of orderID
       (delete_details_of orderID
          (increment_all (detail_item <$> revert_rows orderID s) s))).
Proof.
  unfold DeleteStockReservation, no_fault_aux. simpl.
  by rewrite scan_with_no_fault, release_with_no_fault.
Qed.

(** What the sweep's per-order transaction does when the store reports no
    error. *)
Lemma DeleteStockReservationAndReturn_no_fault i orderID s :
  DeleteStockReservationAndReturn no_fault i orderID s
  = increment_all (detail_item <$> revert_rows orderID s)
      (delete_reservations_of orderID (delete_details_of orderID s)).
Proof.
  unfold DeleteStockReservationAndReturn. simpl.
  by rewrite scan_rows_no_fault, revert_stock_no_fault.
Qed.

(** X8: the two ways of giving a reservation back agree.  Without store
    errors DeleteStockReservation (stock first, then the deletes) and
    DeleteStockReservationAndReturn (deletes first, then the stock) leave
    the same rows in every table. *)
Theorem revert_paths_agree i orderID s :
  fst (DeleteStockReservation no_fault_aux orderID s) = HelperOk ∧
  same_tables (snd (DeleteStockReservation no_fault_aux orderID s))
              (DeleteStockReservationAndReturn no_fault i orderID s).
Proof.
  rewrite DeleteStockReservation_no_fault, DeleteStockReservationAndReturn_no_fault.
  split; [done|]. simpl.
  set (items := detail_item <$> revert_rows orderID s).
  destruct (increment_all_frame items s) as (Hu&Hc&Hci&Ho&Hoi&Hr&Hd).
  destruct (increment_all_frame items
              (delete_reservations_of orderID (delete_details_of orderID s)))
    as (Hu'&Hc'&Hci'&Ho'&Hoi'&Hr'&Hd').
  destruct (increment_all_same_stock items
              (delete_reservations_of orderID (delete_details_of orderID s)) s
              (conj eq_refl eq_refl)) as [Hp Hv].
  unfold same_tables. simpl.
  rewrite Hp, Hv, Hu', Hc', Hci', Ho', Hoi', Hr', Hd'. simpl.
  unfold reservation_ids_of. rewrite Hu, Hc, Hci, Ho, Hoi, Hr, Hd.
  split_and!; reflexivity.
Qed.

(** ** Order of the released items *)

(** X11: the stock ReturnStockToInventory (and its transactional sibling)
    gives back does not depend on the order of the items. *)
Theorem ReturnStockToInventory_order_irrelevant items items' s :
  items ≡ₚ items' →
  ReturnStockToInventory no_fault_aux items s
    = ReturnStockToInventory no_fault_aux items' s ∧
  ReturnStockToInventoryTx no_fault 0 items s
    = ReturnStockToInventoryTx no_fault 0 items' s.
Proof.
  intros Hperm.
  assert (∀ t, increment_all items t = increment_all items' t) as Heq.
  { induction Hperm as [|x l l' _ IH|x y l|l l' l'' _ IH1 _ IH2]; intros t; simpl.
    - done.
    - apply IH.
    - by rewrite increment_stock_comm.
    - by rewrite IH1, IH2. }
  assert (∀ l k t, ReturnStockToInventoryTx no_fault k l t
                   = (true, increment_all l t)) as Htx.
  { induction l as [|x l IH]; intros k t; simpl; [done|apply IH]. }
  split.
  - unfold ReturnStockToInventory, no_fault_aux. simpl.
    by rewrite !release_with_no_fault, Heq.
  - by rewrite !Htx, Heq.
Qed.

Lemma ReturnStockToInventory_order_irrelevant_witness :
  ReturnStockToInventory no_fault_aux
    [mkOrderItem 0 1 None 4 0 0; mkOrderItem 0 2 (Some 3) 1 0 0] (shop 10 2 5)
  = ReturnStockToInventory no_fault_aux
      [mkOrderItem 0 2 (Some 3) 1 0 0; mkOrderItem 0 1 None 4 0 0] (shop 10 2 5) ∧
  ReturnStockToInventoryTx no_fault 0
    [mkOrderItem 0 1 None 4 0 0; mkOrderItem 0 2 (Some 3) 1 0 0] (shop 10 2 5)
  = ReturnStockToInventoryTx no_fault 0
      [mkOrderItem 0 2 (Some 3) 1 0 0; mkOrderItem 0 1 None 4 0 0] (shop 10 2 5).
Proof.
  apply (ReturnStockToInventory_order_irrelevant
           [mkOrderItem 0 1 None 4 0 0; mkOrderItem 0 2 (Some 3) 1 0 0]
           [mkOrderItem 0 2 (Some 3) 1 0 0; mkOrderItem 0 1 None 4 0 0]
           (shop 10 2 5)).
  apply perm_swap.
Defined.

(** X10: ReturnStockToInventory is all or nothing: either every item's
    quantity was added to its stock column, or (on any statement error, and
    on a failed Commit that it does not report) no table changed. *)
Theorem ReturnStockToInventory_all_or_nothing fails items s :
  let r := ReturnStockToInventory fails items s in
  (fst r = HelperOk ∧ fails RCommit = false ∧ snd r = increment_all items s) ∨
  ((fst r = HelperStoreError ∨ fails RCommit = true) ∧ same_tables (snd r) s).
Proof.
  unfold ReturnStockToInventory. simpl.
  destruct (fails RBegin); [right; split; [by left|apply same_tables_refl]|].
  destruct (release_with fails RIncStock 0 items s) as [[] s1] eqn:E.
  - destruct (fails RCommit) eqn:Hc.
    + right. split; [by right|apply same_tables_rollback].
    + left. split_and!; try done. simpl. by eapply release_with_ok.
  - right. split; [by left|apply same_tables_rollback].
Qed.

(** ** Reserve, then release *)

Lemma bind_all_nil {A B} (f : A → list B) (l : list A) :
  (∀ x, x ∈ l → f x = []) → l ≫= f = [].
Proof.
  induction l as [|x l IH]; intros H; [done|].
  rewrite bind_cons, (H x) by (by left). simpl.
  apply IH. intros y Hy. apply H. by right.
Qed.

Lemma bind_all_singleton {A} (f : A → list A) (l : list A) :
  (∀ x, x ∈ l → f x = [x]) → l ≫= f = l.
Proof.
  induction l as [|x l IH]; intros H; [done|].
  rewrite bind_cons, (H x) by (by left). simpl. f_equal.
  apply IH. intros y Hy. apply H. by right.
Qed.

Lemma filter_all {A} (P : A → Prop) `{∀ x, Decision (P x)} (l : list A) :
  (∀ x, x ∈ l → P x) → filter P l = l.
Proof.
  induction l as [|x l IH]; intros H'; [done|].
  rewrite filter_cons_True by (apply H'; by left). f_equal.
  apply IH. intros y Hy. apply H'. by right.
Qed.

Lemma increment_all_detail_items reservationID items :
  ∀ s, increment_all (detail_item <$> (detail_of reservationID <$> items)) s
       = increment_all items s.
Proof. induction items as [|item rest IH]; intros s; simpl; [done|apply IH]. Qed.

(** The rows of a store to which one reservation with its details was just
    added, as the queries of the release paths see them. *)
Lemma fresh_reservation_rows orderID userID reservedAt expiredAt items s s1 :
  reservation_fresh orderID s →
  temp_stock_reservations s1 = temp_stock_reservations s ++
    [mkReservation (next_reservation_id s) userID orderID reservedAt expiredAt] →
  temp_stock_details s1 = temp_stock_details s ++
    (detail_of (next_reservation_id s) <$> items) →
  revert_rows orderID s1 = detail_of (next_reservation_id s) <$> items ∧
  temp_stock_details (delete_details_of orderID s1) = temp_stock_details s ∧
  temp_stock_reservations (delete_reservations_of orderID s1)
    = temp_stock_reservations s.
Proof.
  intros [HR HD] Hr Hd.
  assert (filter (λ r, r_OrderID r = orderID) (temp_stock_reservations s) = [])
    as HnoR.
  { apply filter_none. intros r Hin. by apply HR. }
  split_and!.
  - unfold revert_rows. rewrite Hd, Hr, bind_app.
    rewrite bind_all_nil, bind_all_singleton; [done| |].
    + intros d (item&->&_)%list_elem_of_fmap. simpl.
      rewrite filter_app, (filter_none _ (temp_stock_reservations s)).
      * by rewrite filter_cons_True.
      * intros r Hin [_ Ho]. by apply (HR r Hin).
    + intros d Hin. rewrite filter_app, (filter_none _ (temp_stock_reservations s)).
      * rewrite filter_cons_False; [done|]. simpl. intros [Hid _].
        by apply (HD d Hin).
      * intros r Hin' [_ Ho]. by apply (HR r Hin').
  - unfold delete_details_of, reservation_ids_of. simpl.
    rewrite Hr, Hd, !filter_app, HnoR, filter_cons_True by done. simpl.
    rewrite filter_all, filter_none; [by rewrite app_nil_r| |].
    + intros d (item&->&_)%list_elem_of_fmap Hn. apply Hn. simpl. by left.
    + intros d Hin [Heq|Hnil%elem_of_nil]%elem_of_cons; [|done].
      by apply (HD d Hin).
  - unfold delete_reservations_of. simpl.
    rewrite Hr, filter_app, filter_all, filter_cons_False; [by rewrite app_nil_r| |].
    + simpl. by intros Hn.
    + intros r Hin. by apply HR.
Qed.

(** X9: reserve, then release.  If the store had no reservation for the
    order and every decrement found its quantity, CreateStockReservation
    followed by DeleteStockReservation leaves every table as it was before
    the two calls. *)
Theorem reserve_then_release_round_trip now orderID userID items s h :
  users s !! userID = Some h →
  h = 1 ∨ h = 2 ∨ h = 3 →
  reservation_fresh orderID s →
  decrements_apply items s →
  let r1 := CreateStockReservation no_fault_aux now orderID userID items s in
  let r2 := DeleteStockReservation no_fault_aux orderID (snd r1) in
  fst r1 = HelperOk ∧ fst r2 = HelperOk ∧ same_tables (snd r2) s.
Proof.
  intros Hh Hcase Hfresh Happ r1 r2. subst r1 r2.
  destruct (CreateStockReservation no_fault_aux now orderID userID items s)
    as [res s1] eqn:E.
  assert (res = HelperOk) as ->.
  { revert E. unfold CreateStockReservation. simpl. rewrite Hh.
    destruct (CreateStockReservation_expiry now h) eqn:He.
    2:{ unfold CreateStockReservation_expiry in He.
        destruct Hcase as [-> | [-> | ->]]; discriminate He. }
    match goal with
    | |- context [reserve_items_own ?f ?r ?k ?l ?s0] =>
        pose proof (reserve_items_own_succeeds f r l (λ _, eq_refl) (λ _, eq_refl) k s0)
          as Hok;
        destruct (reserve_items_own f r k l s0) as [ok s2]
    end.
    simpl in Hok. subst ok. by intros [= <- _]. }
  apply CreateStockReservation_committed in E; [|done].
  destruct E as (h'&_&_&Hr&Hd&Hst&Hu&Ho&Hoi&Hc&Hci).
  simpl. rewrite DeleteStockReservation_no_fault. split_and!; try done. simpl.
  destruct (fresh_reservation_rows orderID userID now (now + duration_of h') items
              s s1 Hfresh Hr Hd) as (Hrows&Hdel&Hres).
  rewrite Hrows, increment_all_detail_items.
  destruct (increment_all_frame items s1) as (Hu'&Hc'&Hci'&Ho'&Hoi'&Hr'&Hd').
  destruct (increment_all_same_stock items s1 (decrement_all items s) Hst)
    as [Hp Hv].
  destruct (increment_all_decrement_all items s Happ) as [Hp2 Hv2].
  unfold same_tables. simpl.
  unfold delete_details_of, delete_reservations_of, reservation_ids_of in *.
  simpl in *.
  rewrite Hr', Hd'. rewrite Hdel, Hres.
  split_and!; congruence.
Qed.

Lemma reserve_then_release_round_trip_witness :
  fst (CreateStockReservation no_fault_aux 1000 9 7 [mkOrderItem 0 1 None 4 0 0]
         (shop 10 2 5)) = HelperOk ∧
  fst (DeleteStockReservation no_fault_aux 9
         (snd (CreateStockReservation no_fault_aux 1000 9 7
                 [mkOrderItem 0 1 None 4 0 0] (shop 10 2 5)))) = HelperOk ∧
  same_tables
    (snd (DeleteStockReservation no_fault_aux 9
            (snd (CreateStockReservation no_fault_aux 1000 9 7
                    [mkOrderItem 0 1 None 4 0 0] (shop 10 2 5)))))
    (shop 10 2 5).
Proof.
  apply (reserve_then_release_round_trip 1000 9 7 [mkOrderItem 0 1 None 4 0 0]
           (shop 10 2 5) 2).
  - reflexivity.
  - right. left. reflexivity.
  - split; intros x Hin; vm_compute in Hin; inversion Hin.
  - simpl. split; [|exact I]. vm_compute. intros st [= <-]. discriminate.
Defined.

(** ** CleanExpiredReservations *)

Section Clean.

Context (fails : stmt_aux → bool).

(** The placeholder list never parses: it is empty or ends in a comma. *)
Lemma in_list_ok_Repeat n : in_list_ok (Repeat "?," n) = false.
Proof. induction n as [|n IH]; [done|exact IH]. Qed.

Lemma placeholder_malformed n : in_list_ok (placeholder n) = false.
Proof.
  unfold placeholder.
  rewrite (Join_Split ","%char (Repeat "?," n)). apply in_list_ok_Repeat.
Qed.

Lemma in_stmt_error_placeholder l n :
  in_stmt_error fails l (placeholder n) = true.
Proof.
  unfold in_stmt_error. rewrite placeholder_malformed. by destruct (fails l).
Qed.

Lemma scan_with_succeeds {A B} (lbl : nat → stmt_aux) (f : A → B) rows :
  (∀ k, fails (lbl k) = false) →
  ∀ k, scan_with fails lbl f k rows = Some (f <$> rows).
Proof.
  intros H. induction rows as [|row rest IH]; intros k; simpl; [done|].
  by rewrite H, IH.
Qed.

Lemma release_with_succeeds (lbl : nat → stmt_aux) items :
  (∀ k, fails (lbl k) = false) →
  ∀ k s, release_with fails lbl k items s = (true, increment_all items s).
Proof.
  intros H. induction items as [|item rest IH]; intros k s; simpl; [done|].
  rewrite H. apply IH.
Qed.

(** No run of the handler gets past its UPDATE, and every run leaves the
    rows of every table as they were. *)
Lemma Clean_stops now0 now1 now2 s :
  fst (CleanExpiredReservations fails now0 now1 now2 s) ≠ CleanDeleteFailed ∧
  fst (CleanExpiredReservations fails now0 now1 now2 s) ≠ CleanCommitFailed ∧
  fst (CleanExpiredReservations fails now0 now1 now2 s) ≠ Cleaned.
Proof.
  unfold CleanExpiredReservations.
  destruct (fails CSel); [done|].
  destruct (scan_with _ _ _ _ _) as [details|]; [|done].
  destruct (decide _); [done|].
  destruct (fails CBegin); [done|].
  destruct (release_with _ _ _ _ _) as [[] s1]; [|done].
  destruct (decide _); [done|].
  by rewrite in_stmt_error_placeholder.
Qed.

Lemma Clean_same_tables now0 now1 now2 s :
  same_tables (snd (CleanExpiredReservations fails now0 now1 now2 s)) s.
Proof.
  unfold CleanExpiredReservations.
  destruct (fails CSel); [apply same_tables_refl|].
  destruct (scan_with _ _ _ _ _) as [details|]; [|apply same_tables_refl].
  destruct (decide _); [apply same_tables_refl|].
  destruct (fails CBegin); [apply same_tables_refl|].
  destruct (release_with _ _ _ _ _) as [[] s1]; [|apply same_tables_rollback].
  destruct (decide _); [apply same_tables_rollback|].
  rewrite in_stmt_error_placeholder. apply same_tables_rollback.
Qed.

Lemma Clean_next_ids now0 now1 now2 s :
  next_order_id (snd (CleanExpiredReservations fails now0 now1 now2 s))
    = next_order_id s ∧
  next_reservation_id (snd (CleanExpiredReservations fails now0 now1 now2 s))
    = next_reservation_id s.
Proof.
  unfold CleanExpiredReservations.
  destruct (fails CSel); [done|].
  destruct (scan_with _ _ _ _ _) as [details|] eqn:Hscan; [|done].
  destruct (decide _); [done|].
  destruct (fails CBegin); [done|].
  destruct (release_with _ _ _ _ _) as [ok s1] eqn:H1.
  assert (next_order_id s1 = next_order_id s
          ∧ next_reservation_id s1 = next_reservation_id s) as Hn.
  { clear Hscan. revert H1. generalize 0%nat. revert s s1 ok.
    induction (info_item <$> details) as [|item rest IH]; intros s s1 ok k; simpl.
    - by intros [= <- <-].
    - destruct (fails (CIncStock k)); [by intros [= <- <-]|].
      intros H. apply IH in H. by autorewrite with frame in H. }
  destruct ok; [|done].
  destruct (decide _); [done|].
  by rewrite in_stmt_error_placeholder.
Qed.

(** Where a run stops when the statements before the UPDATE succeed and the
    SELECT found a row. *)
Lemma Clean_with_expired now0 now1 now2 s :
  fails CSel = false → (∀ k, fails (CScan k) = false) →
  fails CBegin = false → (∀ k, fails (CIncStock k) = false) →
  expired_reservation_rows now0 s ≠ [] →
  CleanExpiredReservations fails now0 now1 now2 s
  = (CleanUpdateFailed,
     rollback s (increment_all
                   (info_item <$> (info_of <$> expired_reservation_rows now0 s)) s)).
Proof.
  intros Hsel Hscan Hbegin Hinc Hne. unfold CleanExpiredReservations.
  rewrite Hsel, (scan_with_succeeds CScan info_of _ Hscan), Hbegin.
  rewrite (release_with_succeeds CIncStock _ Hinc).
  destruct (decide _) as [Hz|_].
  { exfalso. by destruct (expired_reservation_rows now0 s). }
  destruct (decide _) as [Hz|_].
  { exfalso. destruct (expired_reservation_rows now0 s) as [|rd rows]; [done|].
    assert (eri_ID (info_of rd)
            ∈ remove_dups (eri_ID <$> (info_of <$> rd :: rows))) as Hin.
    { apply elem_of_remove_dups. by left. }
    destruct (remove_dups _); [by apply elem_of_nil in Hin|done]. }
  by rewrite in_stmt_error_placeholder.
Qed.

(** X13: CleanExpiredReservations is all or nothing: whenever it does not
    answer 200 "dibersihkan", every table is as it was. *)
Theorem Clean_all_or_nothing now0 now1 now2 s :
  fst (CleanExpiredReservations fails now0 now1 now2 s) ≠ Cleaned →
  same_tables (snd (CleanExpiredReservations fails now0 now1 now2 s)) s.
Proof.
  unfold CleanExpiredReservations. intros H.
  repeat (match goal with
          | |- context [match ?x with _ => _ end] => destruct x eqn:?
          end; simpl in *;
          try apply same_tables_refl; try apply same_tables_rollback).
  done.
Qed.

(** X14: the 400 answer "Tidak ada ID reservasi untuk diproses" is dead
    code: the handler reaches that test only with a non-empty list of
    details, whose ids are then non-empty too. *)
Theorem Clean_never_without_ids now0 now1 now2 s :
  fst (CleanExpiredReservations fails now0 now1 now2 s) ≠ NoReservationIDs.
Proof.
  unfold CleanExpiredReservations.
  destruct (fails CSel); [done|].
  destruct (scan_with _ _ _ _ _) as [details|]; [|done].
  destruct (decide (length details = 0%nat)) as [|Hlen]; [done|].
  destruct (fails CBegin); [done|].
  destruct (release_with _ _ _ _ _) as [[] s1]; [|done].
  destruct (decide _) as [Hids|_].
  - exfalso. destruct details as [|d details]; [done|].
    assert (eri_ID d ∈ remove_dups (eri_ID <$> d :: details)) as Hin.
    { apply elem_of_remove_dups. by left. }
    destruct (remove_dups (eri_ID <$> d :: details)); [|done].
    by apply elem_of_nil in Hin.
  - destruct (in_stmt_error _ _ _); [done|].
    destruct (in_stmt_error _ _ _); [done|].
    by destruct (fails CCommit).
Qed.

(** X12: when no reservation that has detail rows is past its
    [expired_at], the handler answers "Tidak ada reservasi expired" and
    changes nothing; a reservation without detail rows is never selected. *)
Theorem Clean_nothing_expired now0 now1 now2 s :
  fails CSel = false →
  (∀ r d, r ∈ temp_stock_reservations s → d ∈ temp_stock_details s →
          r_ID r = d_TempReservationID d → now0 < r_ExpiredAt r) →
  CleanExpiredReservations fails now0 now1 now2 s = (NothingExpired, s).
Proof.
  intros Hsel Hlive. unfold CleanExpiredReservations. rewrite Hsel.
  assert (expired_reservation_rows now0 s = []) as ->; [|done].
  unfold expired_reservation_rows. apply bind_all_nil. intros d Hd.
  rewrite filter_none; [done|].
  intros r Hr [Hid Hexp]. specialize (Hlive r d Hr Hd Hid). lia.
Qed.

(** X15: no run of CleanExpiredReservations cleans anything.  The UPDATE
    and the DELETE are built around the placeholder list, which never
    parses, so whatever the store answers the handler never gets past its
    UPDATE: it never answers 200 "dibersihkan", never reaches the DELETE or
    the Commit, and the rows of every table are as they were before the
    call. *)
Theorem Clean_changes_nothing now0 now1 now2 s :
  let c := CleanExpiredReservations fails now0 now1 now2 s in
  fst c ≠ Cleaned ∧ fst c ≠ CleanDeleteFailed ∧ fst c ≠ CleanCommitFailed ∧
  same_tables (snd c) s.
Proof.
  destruct (Clean_stops now0 now1 now2 s) as (Hd&Hc&Hok).
  split_and!; [done|done|done|apply Clean_same_tables].
Qed.

End Clean.

Lemma expired_rows_elem now0 s r d :
  d ∈ temp_stock_details s → r ∈ temp_stock_reservations s →
  r_ID r = d_TempReservationID d → r_ExpiredAt r ≤ now0 →
  (r, d) ∈ expired_reservation_rows now0 s.
Proof.
  intros Hd Hr Hid Hexp. unfold expired_reservation_rows.
  apply list_elem_of_bind. exists d. split; [|done].
  apply list_elem_of_fmap. exists r. split; [done|].
  by apply list_elem_of_filter.
Qed.

Lemma expired_rows_inv now0 s r d :
  (r, d) ∈ expired_reservation_rows now0 s →
  d ∈ temp_stock_details s ∧ r ∈ temp_stock_reservations s ∧
  r_ID r = d_TempReservationID d ∧ r_ExpiredAt r ≤ now0.
Proof.
  unfold expired_reservation_rows. intros Hin.
  apply list_elem_of_bind in Hin as (d'&Hin&Hd).
  apply list_elem_of_fmap in Hin as (r'&Heq&Hin).
  apply list_elem_of_filter in Hin as [[Hid Hexp] Hr].
  injection Heq as -> ->. done.
Qed.

(** X16: when at least one reservation with a detail row is past its
    [expired_at] and the statements before the UPDATE succeed, the handler
    releases the stock inside its transaction, fails at the UPDATE, answers
    500 "Gagal update status order" and rolls back: the reservation and its
    detail are still stored, no order has changed and every stock row holds
    what it held. *)
Theorem Clean_stops_at_update fails now0 now1 now2 s r d :
  fails CSel = false → (∀ k, fails (CScan k) = false) →
  fails CBegin = false → (∀ k, fails (CIncStock k) = false) →
  (r, d) ∈ expired_reservation_rows now0 s →
  let c := CleanExpiredReservations fails now0 now1 now2 s in
  fst c = CleanUpdateFailed ∧
  r ∈ temp_stock_reservations (snd c) ∧ d ∈ temp_stock_details (snd c) ∧
  orders (snd c) = orders s ∧
  products (snd c) = products s ∧ product_variants (snd c) = product_variants s.
Proof.
  intros Hsel Hscan Hbegin Hinc Hin c. subst c.
  rewrite (Clean_with_expired fails now0 now1 now2 s Hsel Hscan Hbegin Hinc).
  - apply expired_rows_inv in Hin as (Hd&Hr&_). by simpl.
  - intros Hnil. rewrite Hnil in Hin. by apply elem_of_nil in Hin.
Qed.

Lemma Clean_stops_at_update_witness :
  let s := snd (CreateOrder no_fault 7 1000 1001 (shop 10 2 5)) in
  let c := CleanExpiredReservations no_fault_aux 1001 1001 1001 s in
  products s !! 1 = Some 5 ∧
  fst c = CleanUpdateFailed ∧
  mkReservation 1 7 1 1001 1001 ∈ temp_stock_reservations (snd c) ∧
  mkDetail 1 1 None 5 ∈ temp_stock_details (snd c) ∧
  orders (snd c) = orders s ∧
  products (snd c) = products s ∧ product_variants (snd c) = product_variants s.
Proof.
  split; [vm_compute; reflexivity|].
  apply (Clean_stops_at_update no_fault_aux 1001 1001 1001
           (snd (CreateOrder no_fault 7 1000 1001 (shop 10 2 5)))
           (mkReservation 1 7 1 1001 1001) (mkDetail 1 1 None 5));
    try reflexivity.
  vm_compute. left.
Defined.

Lemma Clean_all_or_nothing_witness :
  let s := snd (CreateOrder no_fault 7 1000 1001 (shop 10 2 5)) in
  let released :=
    snd (release_with no_fault_aux CIncStock 0
           (info_item <$> (info_of <$> expired_reservation_rows 1001 s)) s) in
  products s !! 1 = Some 5 ∧ products released !! 1 = Some 10 ∧
  fst (CleanExpiredReservations no_fault_aux 1001 1001 1001 s) = CleanUpdateFailed ∧
  same_tables (snd (CleanExpiredReservations no_fault_aux 1001 1001 1001 s)) s.
Proof.
  split; [vm_compute; reflexivity|]. split; [vm_compute; reflexivity|].
  split; [vm_compute; reflexivity|].
  apply (Clean_all_or_nothing no_fault_aux 1001 1001 1001
           (snd (CreateOrder no_fault 7 1000 1001 (shop 10 2 5)))).
  vm_compute. discriminate.
Defined.

Lemma Clean_nothing_expired_witness :
  let s := snd (CreateStockReservation no_fault_aux 50000000000000 2 7
                  [mkOrderItem 2 1 None 5 10 50]
                  (snd (CreateStockReservation no_fault_aux 1000 1 7 [] (shop 10 2 5)))) in
  (r_ExpiredAt <$> temp_stock_reservations s) = [43200000001000; 93200000000000] ∧
  (d_TempReservationID <$> temp_stock_details s) = [2] ∧
  CleanExpiredReservations no_fault_aux 60000000000000 60000000000000
    60000000000000 s = (NothingExpired, s).
Proof.
  split; [vm_compute; reflexivity|]. split; [vm_compute; reflexivity|].
  apply (Clean_nothing_expired no_fault_aux 60000000000000 60000000000000
           60000000000000); [reflexivity|].
  intros r d Hr Hd.
  vm_compute in Hr. vm_compute in Hd.
  apply elem_of_cons in Hd as [->|Hd]; [|by apply elem_of_nil in Hd].
  apply elem_of_cons in Hr as [->|Hr].
  - intros Hid. vm_compute in Hid. discriminate Hid.
  - apply elem_of_cons in Hr as [->|Hr]; [|by apply elem_of_nil in Hr].
    intros _. vm_compute. reflexivity.
Defined.

(** X17: running the clean again does not help.  After any first run, a
    second run at the same time or later finds the same expired reservation,
    stops at the same UPDATE and again leaves every table as it was before
    the first run: the expired reservations are never collected. *)
Theorem Clean_retry_stops_again fails fails' now0 now1 now2 now0' now1' now2' s r d :
  (r, d) ∈ expired_reservation_rows now0 s → now0 ≤ now0' →
  fails' CSel = false → (∀ k, fails' (CScan k) = false) →
  fails' CBegin = false → (∀ k, fails' (CIncStock k) = false) →
  let s1 := snd (CleanExpiredReservations fails now0 now1 now2 s) in
  let c2 := CleanExpiredReservations fails' now0' now1' now2' s1 in
  (r, d) ∈ expired_reservation_rows now0' s1 ∧
  fst c2 = CleanUpdateFailed ∧
  same_tables (snd c2) s.
Proof.
  intros Hin Hle Hsel Hscan Hbegin Hinc s1 c2. subst c2.
  pose proof (Clean_same_tables fails now0 now1 now2 s) as Hsame. fold s1 in Hsame.
  assert ((r, d) ∈ expired_reservation_rows now0' s1) as Hin'.
  { apply expired_rows_inv in Hin as (Hd&Hr&Hid&Hexp).
    destruct Hsame as (_&_&_&_&_&_&_&Hrs&Hds).
    apply expired_rows_elem; [by rewrite Hds|by rewrite Hrs|done|lia]. }
  split; [done|].
  rewrite (Clean_with_expired fails' now0' now1' now2' s1 Hsel Hscan Hbegin Hinc).
  - split; [done|]. simpl.
    destruct Hsame as (H1&H2&H3&H4&H5&H6&H7&H8&H9).
    unfold same_tables, rollback. simpl. done.
  - intros Hnil. rewrite Hnil in Hin'. by apply elem_of_nil in Hin'.
Qed.

Lemma Clean_retry_stops_again_witness :
  let s := snd (CreateOrder no_fault 7 1000 1001 (shop 10 2 5)) in
  let s1 := snd (CleanExpiredReservations no_fault_aux 1001 1001 1001 s) in
  let c2 := CleanExpiredReservations no_fault_aux 2001 2001 2001 s1 in
  (mkReservation 1 7 1 1001 1001, mkDetail 1 1 None 5)
    ∈ expired_reservation_rows 2001 s1 ∧
  fst c2 = CleanUpdateFailed ∧
  same_tables (snd c2) s.
Proof.
  apply (Clean_retry_stops_again no_fault_aux no_fault_aux 1001 1001 1001
           2001 2001 2001 (snd (CreateOrder no_fault 7 1000 1001 (shop 10 2 5)))
           (mkReservation 1 7 1 1001 1001) (mkDetail 1 1 None 5));
    try reflexivity; [|lia].
  vm_compute. left.
Defined.

(** X18: checkout, then clean.  The reservation a successful createOrder
    writes is born expired, so a clean that runs at any time afterwards
    selects it and releases its stock inside the transaction; but the clean
    then stops at its UPDATE and rolls back.  The new order is still
    [waitToBuy] with its deadline, its reservation is still stored, and
    every stock row holds what createOrder left. *)
Theorem checkout_then_clean_keeps_order
    fails userID now resNow s id e s1 now0 now1 now2 :
  CreateOrder fails userID now resNow s = (OrderCreated id e, s1) →
  resNow ≤ now0 →
  let c := CleanExpiredReservations no_fault_aux now0 now1 now2 s1 in
  fst c = CleanUpdateFailed ∧
  (∃ o, o ∈ orders (snd c) ∧ o_ID o = id ∧ o_Status o = "waitToBuy" ∧
        o_TimerExpiration o = e) ∧
  mkReservation (next_reservation_id s) userID id resNow resNow
    ∈ temp_stock_reservations (snd c) ∧
  same_stock (snd c) s1.
Proof.
  intros Hc Hres c. subst c.
  apply CreateOrder_created in Hc.
  destruct Hc as (total&h&_&_&Hne&_&_&Ho&_&Hr&Hd&_).
  destruct (item_of_cart <$> cart_rows userID s) as [|item items] eqn:Hitems;
    [done|].
  set (rnew := mkReservation (next_reservation_id s) userID id resNow resNow).
  set (dnew := detail_of (next_reservation_id s) item).
  assert ((rnew, dnew) ∈ expired_reservation_rows now0 s1) as Hin.
  { apply expired_rows_elem; simpl; [| |done|lia].
    - rewrite Hd. apply elem_of_app. right. by left.
    - rewrite Hr. apply elem_of_app. right. by left. }
  rewrite (Clean_with_expired no_fault_aux now0 now1 now2 s1); try done.
  2:{ intros Hnil. rewrite Hnil in Hin. by apply elem_of_nil in Hin. }
  simpl. split_and!; [done| | |done].
  - exists (mkOrder id userID (Some userID) "waitToBuy" total e now now).
    split; [|done]. rewrite Ho. apply elem_of_app. right. by left.
  - rewrite Hr. apply elem_of_app. right. by left.
Qed.

Lemma checkout_then_clean_keeps_order_witness :
  let s1 := snd (CreateOrder no_fault 7 1000 1001 (shop 10 2 5)) in
  let c := CleanExpiredReservations no_fault_aux 1001 1001 1001 s1 in
  fst c = CleanUpdateFailed ∧
  (∃ o, o ∈ orders (snd c) ∧ o_ID o = 1 ∧ o_Status o = "waitToBuy" ∧
        o_TimerExpiration o = 1000 + 12 * Hour) ∧
  mkReservation (next_reservation_id (shop 10 2 5)) 7 1 1001 1001
    ∈ temp_stock_reservations (snd c) ∧
  same_stock (snd c) s1.
Proof.
  apply (checkout_then_clean_keeps_order no_fault 7 1000 1001 (shop 10 2 5) 1
           (1000 + 12 * Hour)
           (snd (CreateOrder no_fault 7 1000 1001 (shop 10 2 5)))
           1001 1001 1001); [|lia].
  vm_compute. reflexivity.
Defined.

(** ** Invariants of the engine *)

(** An induction principle for the sweep under arbitrary store errors: a
    property of the store that each of its statements keeps holds after the
    handler, wherever it stopped. *)
Lemma expire_loop_keeps (P : DB → Prop) fails (ids : list Z) expiredOrders :
  (∀ s oid, oid ∈ ids → P s → P (set_orders (fmap (set_expired_at oid)) s)) →
  (∀ s uid, P s → P (set_users (alter (λ h, h - 1) uid) s)) →
  (∀ s i oid, P s → P (DeleteStockReservationAndReturn fails i oid s)) →
  (∀ p, p ∈ expiredOrders → p.1 ∈ ids) →
  ∀ i s, P s → P (snd (expire_loop fails i expiredOrders s)).
Proof.
  intros Hexp Hdec Hrev.
  induction expiredOrders as [|[orderID userID] rest IH]; intros Hids i s HP;
    simpl; [done|].
  assert (orderID ∈ ids) as Hin by (apply (Hids (orderID, userID)); by left).
  destruct (fails (UpdExpired i)); [done|].
  destruct (fails (DecHearts i)); simpl; [by apply Hexp|].
  apply IH.
  - intros p Hp. apply Hids. by right.
  - by apply Hrev, Hdec, Hexp.
Qed.

Lemma sweep_keeps (P : DB → Prop) fails now s :
  (∀ s' oid, oid ∈ (o_ID <$> filter (is_overdue now) (orders s)) → P s' →
             P (set_orders (fmap (set_expired_at oid)) s')) →
  (∀ s' uid, P s' → P (set_users (alter (λ h, h - 1) uid) s')) →
  (∀ s' i oid, P s' → P (DeleteStockReservationAndReturn fails i oid s')) →
  P s → P (snd (CheckAndExpireOrders fails now s)).
Proof.
  intros Hexp Hdec Hrev HP. unfold CheckAndExpireOrders.
  destruct (fails SelExpired); [done|].
  destruct (scan_rows _ _ _ _ _) as [l|] eqn:Hscan; [|done].
  apply scan_rows_Some in Hscan. subst l.
  destruct (fails ExpiredErr); [done|].
  eapply expire_loop_keeps; eauto.
  intros p (o&->&Ho)%list_elem_of_fmap. simpl. by apply list_elem_of_fmap_2.
Qed.

Lemma o_ID_set_expired_at orderID o : o_ID (set_expired_at orderID o) = o_ID o.
Proof. unfold set_expired_at. by case_decide. Qed.

Lemma ids_set_expired_at orderID (l : list OrderModel) :
  o_ID <$> (set_expired_at orderID <$> l) = o_ID <$> l.
Proof.
  rewrite <- list_fmap_compose. apply list_fmap_ext.
  intros _ o _. apply o_ID_set_expired_at.
Qed.

Lemma ids_set_status_at orderID st now (l : list OrderModel) :
  o_ID <$> (set_status_at orderID st now <$> l) = o_ID <$> l.
Proof.
  rewrite <- list_fmap_compose. apply list_fmap_ext.
  intros _ o _. apply o_ID_set_status_at.
Qed.

Lemma elem_of_fmap_id_bound (f : OrderModel → OrderModel) (l : list OrderModel) n :
  (∀ o, o_ID (f o) = o_ID o) →
  (∀ o, o ∈ l → o_ID o < n) → ∀ o, o ∈ f <$> l → o_ID o < n.
Proof.
  intros Hf Hl o (o0&->&Hin)%list_elem_of_fmap. rewrite Hf. by apply Hl.
Qed.

Lemma next_order_id_revert fails i orderID s :
  next_order_id (DeleteStockReservationAndReturn fails i orderID s)
  = next_order_id s.
Proof.
  unfold DeleteStockReservationAndReturn.
  destruct (fails (BeginRevert i)); [done|].
  destruct (fails (SelRevertDetails i)); [done|].
  destruct (scan_rows _ _ _ _ _); [|done].
  destruct (fails (DelRevertDetails i)); [done|].
  destruct (fails (DelRevertReservation i)); [done|].
  destruct (revert_stock _ _ _ _ _) as [ok s3] eqn:H3.
  apply revert_stock_frame in H3. simpl in H3.
  destruct H3 as (_&_&_&_&_&_&_&Hn&_).
  destruct ok; [destruct (fails (CommitRevert i))|]; simpl; done.
Qed.

Lemma orders_wf_revert fails i orderID s :
  orders_wf s → orders_wf (DeleteStockReservationAndReturn fails i orderID s).
Proof.
  intros (Hnd&Hlt&Hr).
  pose proof (next_order_id_revert fails i orderID s) as Hn.
  destruct (DeleteStockReservationAndReturn_cases fails i orderID s)
    as [[Ho _] [Hsame|(Hres&_)]]; unfold orders_wf; rewrite Hn, Ho.
  - destruct Hsame as (_&_&_&_&_&_&_&Hres&_). by rewrite Hres.
  - split_and!; [done|done|].
    intros r. rewrite Hres. intros [_ Hin]%list_elem_of_filter. by apply Hr.
Qed.

Lemma ReturnStockToInventoryTx_next_order_id fails items :
  ∀ k s, next_order_id (snd (ReturnStockToInventoryTx fails k items s))
         = next_order_id s.
Proof.
  induction items as [|item rest IH]; intros k s; simpl; [done|].
  destruct (fails (IncStock k)); [done|].
  rewrite IH. by autorewrite with frame.
Qed.

(** CreateOrder uses up one order id when it inserts the order row and none
    otherwise; a rolled-back attempt keeps the id it used. *)
Lemma CreateOrder_next_order_id fails userID now resNow s :
  let r := CreateOrder fails userID now resNow s in
  (next_order_id (snd r) = next_order_id s ∨
   next_order_id (snd r) = next_order_id s + 1) ∧
  (∀ id e, fst r = OrderCreated id e → next_order_id (snd r) = next_order_id s + 1).
Proof.
  unfold CreateOrder.
  destruct (fails SelCart); [by split; [left|]|].
  destruct (carts s !! userID); [|by split; [left|]].
  destruct (fails SelCartItems); [by split; [left|]|].
  destruct (scan_rows _ _ _ _ _) as [items|]; [|by split; [left|]].
  destruct (decide _); [by split; [left|]|].
  destruct (fails SelHeart); [by split; [left|]|].
  destruct (users s !! userID); [|by split; [left|]].
  destruct (fails BeginCreate); [by split; [left|]|].
  destruct (fails InsOrder); [by split; [left|]|].
  destruct (insert_order_items _ _ _ _ _) as [ok2 s2] eqn:H2.
  apply insert_order_items_frame in H2. simpl in H2.
  destruct H2 as (_&_&_&_&_&_&_&_&Hn2&_).
  destruct ok2; [|by split; [right|]].
  unfold CreateStockReservationTx.
  destruct (fails InsReservation); [by split; [right|]|].
  destruct (reserve_items _ _ _ _ _) as [ok3 s3] eqn:H3.
  apply reserve_items_frame in H3. simpl in H3.
  destruct H3 as (_&_&_&_&_&_&Hn3&_).
  assert (next_order_id (clear_cart fails userID s3) = next_order_id s3) as Hn4.
  { unfold clear_cart. by destruct (fails DelCartItems), (fails ZeroCartTotal). }
  destruct ok3; [|split; [right; simpl; congruence|done]].
  destruct (fails CommitCreate); simpl; (split; [right|intros]; congruence).
Qed.

Lemma CancelOrder_next_order_id fails userID orderID now s :
  next_order_id (snd (CancelOrder fails userID orderID now s)) = next_order_id s.
Proof.
  unfold CancelOrder.
  destruct (fails SelOrder); [done|].
  destruct (head _) as [order|]; [|done].
  destruct (decide _); [done|]. destruct (decide _); [done|].
  destruct (GetOrderItems _ _ _) as [items|]; [|done].
  destruct (fails BeginCancel); [done|].
  destruct (fails UpdCanceled); [done|].
  unfold DeleteStockReservationTx.
  destruct (fails DelDetailsTx); [done|].
  destruct (fails DelReservationTx); [done|].
  match goal with
  | |- context [ReturnStockToInventoryTx ?f ?k ?l ?s0] =>
      pose proof (ReturnStockToInventoryTx_next_order_id f l k s0) as Hn;
      destruct (ReturnStockToInventoryTx f k l s0) as [ok s3]
  end.
  simpl in Hn.
  destruct ok; [destruct (fails CommitCancel)|]; simpl; done.
Qed.

Lemma Clean_next_order_id fails now0 now1 now2 s :
  next_order_id (snd (CleanExpiredReservations fails now0 now1 now2 s))
  = next_order_id s.
Proof. apply Clean_next_ids. Qed.

Lemma orders_wf_same_tables a b :
  same_tables a b → next_order_id b ≤ next_order_id a →
  orders_wf b → orders_wf a.
Proof.
  intros (_&_&_&_&_&Ho&_&Hr&_) Hn (Hnd&Hlt&Hres).
  unfold orders_wf. rewrite Ho, Hr. split_and!; [done| |].
  - intros o Hin. specialize (Hlt o Hin). lia.
  - intros r Hin. specialize (Hres r Hin). lia.
Qed.

Lemma orders_wf_CreateOrder fails userID now resNow s :
  orders_wf s → orders_wf (snd (CreateOrder fails userID now resNow s)).
Proof.
  intros Hwf.
  destruct (CreateOrder_next_order_id fails userID now resNow s) as [Hn Hn1].
  destruct (CreateOrder_created_or_same fails userID now resNow s)
    as [(id&e&Hr)|Hsame].
  2:{ eapply orders_wf_same_tables; [exact Hsame| |exact Hwf].
      destruct Hn as [-> | ->]; lia. }
  specialize (Hn1 id e Hr).
  destruct (CreateOrder fails userID now resNow s) as [r s'] eqn:E.
  simpl in *. subst r. apply CreateOrder_created in E.
  destruct E as (total&h&_&_&_&Hid&_&Ho&_&Hres&_).
  destruct Hwf as (Hnd&Hlt&Hrlt).
  unfold orders_wf. rewrite Ho, Hres, Hn1, fmap_app. split_and!.
  - apply NoDup_app. split_and!; [done| |apply NoDup_singleton].
    intros x (o&->&Hin)%list_elem_of_fmap [Heq|Hnil%elem_of_nil]%elem_of_cons;
      [|done].
    simpl in Heq. specialize (Hlt o Hin). lia.
  - intros o [Hin|Hin%list_elem_of_singleton]%elem_of_app.
    + specialize (Hlt o Hin). lia.
    + subst o. simpl. lia.
  - intros r [Hin|Hin%list_elem_of_singleton]%elem_of_app.
    + specialize (Hrlt r Hin). lia.
    + subst r. simpl. lia.
Qed.

Lemma orders_wf_CancelOrder fails userID orderID now s :
  orders_wf s → orders_wf (snd (CancelOrder fails userID orderID now s)).
Proof.
  intros Hwf.
  pose proof (CancelOrder_next_order_id fails userID orderID now s) as Hn.
  destruct (CancelOrder_canceled_or_same fails userID orderID now s)
    as [Hr|[_ Hsame]].
  2:{ eapply orders_wf_same_tables; [exact Hsame|lia|exact Hwf]. }
  destruct (CancelOrder fails userID orderID now s) as [r s'] eqn:E.
  simpl in *. subst r. apply CancelOrder_canceled in E.
  destruct E as (order&_&_&_&Ho&Hres&_).
  destruct Hwf as (Hnd&Hlt&Hrlt).
  unfold orders_wf. rewrite Ho, Hres, Hn, ids_set_status_at. split_and!; [done| |].
  - apply elem_of_fmap_id_bound; [|done]. intros o. apply o_ID_set_status_at.
  - intros r [_ Hin]%list_elem_of_filter. by apply Hrlt.
Qed.

Lemma orders_wf_sweep fails now s :
  orders_wf s → orders_wf (snd (CheckAndExpireOrders fails now s)).
Proof.
  apply sweep_keeps.
  - intros s' oid _ (Hnd&Hlt&Hrlt). unfold orders_wf. simpl.
    rewrite ids_set_expired_at. split_and!; [done| |done].
    apply elem_of_fmap_id_bound; [|done]. intros o. apply o_ID_set_expired_at.
  - by intros s' uid.
  - intros s' i oid. apply orders_wf_revert.
Qed.

Lemma orders_wf_Clean fails now0 now1 now2 s :
  orders_wf s → orders_wf (snd (CleanExpiredReservations fails now0 now1 now2 s)).
Proof.
  intros Hwf.
  pose proof (Clean_next_order_id fails now0 now1 now2 s) as Hn.
  apply (orders_wf_same_tables _ s); [apply Clean_same_tables|lia|exact Hwf].
Qed.

Lemma NoDup_ids_eq (l : list OrderModel) o1 o2 :
  NoDup (o_ID <$> l) → o1 ∈ l → o2 ∈ l → o_ID o1 = o_ID o2 → o1 = o2.
Proof.
  induction l as [|x l IH]; intros Hnd H1 H2 Heq.
  - by apply elem_of_nil in H1.
  - rewrite fmap_cons in Hnd. apply NoDup_cons in Hnd as [Hx Hnd].
    apply elem_of_cons in H1 as [->|H1], H2 as [->|H2]; try done.
    + exfalso. apply Hx. rewrite Heq. by apply list_elem_of_fmap_2.
    + exfalso. apply Hx. rewrite <- Heq. by apply list_elem_of_fmap_2.
    + by apply IH.
Qed.

Lemma orders_wf_perform a s : orders_wf s → orders_wf (perform s a).
Proof.
  destruct a as [[]|]; simpl.
  - apply orders_wf_CreateOrder.
  - apply orders_wf_CancelOrder.
  - apply orders_wf_sweep.
  - apply orders_wf_Clean.
Qed.

(** X19: order ids are never reused.  Under any sequence of createOrder,
    cancelOrder, sweep and clean calls, with any store errors, the ids of
    the order rows stay distinct, and the id a successful createOrder
    answers with is the id of no order that existed before the call. *)
Theorem order_ids_never_reused actions s :
  orders_wf s →
  let s' := foldl perform s actions in
  NoDup (o_ID <$> orders s') ∧
  ∀ fails userID now resNow id e,
    fst (CreateOrder fails userID now resNow s') = OrderCreated id e →
    ∀ o, o ∈ orders s' → o_ID o ≠ id.
Proof.
  intros Hwf s'.
  assert (orders_wf s') as (Hnd&Hlt&_).
  { subst s'. revert s Hwf.
    induction actions as [|a rest IH]; intros s Hwf; simpl; [done|].
    by apply IH, orders_wf_perform. }
  split; [done|].
  intros fails userID now resNow id e Hr o Hin.
  destruct (CreateOrder fails userID now resNow s') as [r s2] eqn:E.
  simpl in Hr. subst r. apply CreateOrder_created in E.
  destruct E as (_&_&_&_&_&Hid&_). specialize (Hlt o Hin). lia.
Qed.

Lemma order_ids_never_reused_witness :
  NoDup (o_ID <$> orders
           (foldl perform (shop2 10)
              [ActRequest (ReqCreate no_fault 7 1000 1001);
               ActRequest (ReqCancel no_fault 7 1 1500);
               ActRequest (ReqCreate no_fault 8 2000 2001)])).
Proof.
  refine (proj1 (order_ids_never_reused
                   [ActRequest (ReqCreate no_fault 7 1000 1001);
                    ActRequest (ReqCancel no_fault 7 1 1500);
                    ActRequest (ReqCreate no_fault 8 2000 2001)]
                   (shop2 10) _)).
  split_and!.
  - simpl. apply NoDup_nil_2.
  - intros o Hin. vm_compute in Hin. inversion Hin.
  - intros r Hin. vm_compute in Hin. inversion Hin.
Defined.

(** ** Closed orders stay closed *)

Lemma no_hold_same_tables a b :
  same_tables a b → no_hold_on_canceled b → no_hold_on_canceled a.
Proof.
  intros (_&_&_&_&_&Ho&_&Hr&_) H r o. rewrite Ho, Hr. apply H.
Qed.

Lemma no_hold_CreateOrder fails userID now resNow s :
  orders_wf s → no_hold_on_canceled s →
  no_hold_on_canceled (snd (CreateOrder fails userID now resNow s)).
Proof.
  intros (Hnd&Hlt&Hrlt) Hno.
  destruct (CreateOrder_created_or_same fails userID now resNow s)
    as [(id&e&Hr)|Hsame]; [|by eapply no_hold_same_tables].
  destruct (CreateOrder fails userID now resNow s) as [r s'] eqn:E.
  simpl in *. subst r. apply CreateOrder_created in E.
  destruct E as (total&h&_&_&_&Hid&_&Ho&_&Hres&_).
  intros r o. rewrite Ho, Hres.
  intros [Hr|Hr%list_elem_of_singleton]%elem_of_app
         [Hin|Hin%list_elem_of_singleton]%elem_of_app Heq.
  - by apply (Hno r o).
  - subst o. simpl in Heq. specialize (Hrlt r Hr). lia.
  - subst r. simpl in Heq. specialize (Hlt o Hin). lia.
  - by subst o.
Qed.

Lemma no_hold_CancelOrder fails userID orderID now s :
  no_hold_on_canceled s →
  no_hold_on_canceled (snd (CancelOrder fails userID orderID now s)).
Proof.
  intros Hno.
  destruct (CancelOrder_canceled_or_same fails userID orderID now s)
    as [Hr|[_ Hsame]]; [|by eapply no_hold_same_tables].
  destruct (CancelOrder fails userID orderID now s) as [r s'] eqn:E.
  simpl in *. subst r. apply CancelOrder_canceled in E.
  destruct E as (order&_&_&_&Ho&Hres&_).
  intros r o. rewrite Ho, Hres.
  intros [Hne Hr]%list_elem_of_filter (o0&->&Hin)%list_elem_of_fmap Heq.
  rewrite o_ID_set_status_at in Heq.
  unfold set_status_at. rewrite decide_False by congruence.
  by apply (Hno r o0).
Qed.

Lemma no_hold_revert fails i orderID s :
  no_hold_on_canceled s →
  no_hold_on_canceled (DeleteStockReservationAndReturn fails i orderID s).
Proof.
  intros Hno.
  destruct (DeleteStockReservationAndReturn_cases fails i orderID s)
    as [[Ho _] [Hsame|(Hres&_)]]; [by eapply no_hold_same_tables|].
  intros r o. rewrite Ho, Hres. intros [_ Hr]%list_elem_of_filter. by apply Hno.
Qed.

Lemma no_hold_sweep fails now s :
  no_hold_on_canceled s →
  no_hold_on_canceled (snd (CheckAndExpireOrders fails now s)).
Proof.
  apply sweep_keeps.
  - intros s' oid _ Hno r o. simpl.
    intros Hr (o0&->&Hin)%list_elem_of_fmap Heq.
    rewrite o_ID_set_expired_at in Heq. unfold set_expired_at.
    case_decide; [done|]. by apply (Hno r o0).
  - by intros s' uid.
  - intros s' i oid. apply no_hold_revert.
Qed.

Lemma no_hold_Clean fails now0 now1 now2 s :
  no_hold_on_canceled s →
  no_hold_on_canceled (snd (CleanExpiredReservations fails now0 now1 now2 s)).
Proof.
  intros Hno. apply (no_hold_same_tables _ s); [|done]. apply Clean_same_tables.
Qed.

Lemma no_hold_perform a s :
  orders_wf s → no_hold_on_canceled s → no_hold_on_canceled (perform s a).
Proof.
  intros Hwf. destruct a as [[]|]; simpl.
  - by apply no_hold_CreateOrder.
  - apply no_hold_CancelOrder.
  - apply no_hold_sweep.
  - apply no_hold_Clean.
Qed.

(** One call never changes the row of a canceled or expired order. *)
Lemma closed_row_kept a s o :
  orders_wf s → no_hold_on_canceled s →
  o ∈ orders s → o_Status o = "canceled" ∨ o_Status o = "expired" →
  o ∈ orders (perform s a).
Proof.
  intros (Hnd&Hlt&Hrlt) Hno Hin Hclosed.
  assert (o_Status o ≠ "waitToBuy") as Hnw by (destruct Hclosed as [-> | ->]; done).
  destruct a as [[fails userID now resNow|fails userID orderID now|fails now]
                |fails now0 now1 now2]; simpl.
  - destruct (CreateOrder_created_or_same fails userID now resNow s)
      as [(id&e&Hr)|Hsame].
    + destruct (CreateOrder fails userID now resNow s) as [r s'] eqn:E.
      simpl in *. subst r. apply CreateOrder_created in E.
      destruct E as (total&h&_&_&_&_&_&Ho&_). rewrite Ho.
      apply elem_of_app. by left.
    + destruct Hsame as (_&_&_&_&_&Ho&_). by rewrite Ho.
  - destruct (CancelOrder_canceled_or_same fails userID orderID now s)
      as [Hr|[_ Hsame]].
    + destruct (CancelOrder fails userID orderID now s) as [r s'] eqn:E.
      simpl in *. subst r. apply CancelOrder_canceled in E.
      destruct E as (order&Hhead&_&Hst&Ho&_). rewrite Ho.
      apply list_elem_of_fmap. exists o. split; [|done].
      unfold set_status_at. case_decide as Hid; [|done].
      exfalso. apply head_Some_elem_of in Hhead.
      apply list_elem_of_filter in Hhead as [Hoid Hoin].
      assert (o = order) as -> by (apply (NoDup_ids_eq (orders s)); congruence).
      done.
    + destruct Hsame as (_&_&_&_&_&Ho&_). by rewrite Ho.
  - apply (sweep_keeps (λ s', o ∈ orders s')); [| | |done].
    + intros s' oid (o2&->&Ho2)%list_elem_of_fmap Hin'. simpl.
      apply list_elem_of_filter in Ho2 as [[Hw _] Ho2].
      apply list_elem_of_fmap. exists o. split; [|done].
      unfold set_expired_at. case_decide as Hid; [|done].
      exfalso. assert (o = o2) as -> by (by apply (NoDup_ids_eq (orders s))).
      done.
    + by intros s' uid.
    + intros s' i oid Hin'.
      destruct (DeleteStockReservationAndReturn_cases fails i oid s')
        as [[Ho _] _]. by rewrite Ho.
  - destruct (Clean_same_tables fails now0 now1 now2 s) as (_&_&_&_&_&Ho&_).
    by rewrite Ho.
Qed.

(** X20: closed orders stay closed.  In a store with distinct order ids
    and no reservation held for a canceled order, the row of an order that
    is canceled or expired is never changed again by any sequence of
    createOrder, cancelOrder, sweep and clean calls, whatever store errors
    they meet (although the clean's UPDATE has no status guard). *)
Theorem closed_orders_stay_closed actions s o :
  orders_wf s → no_hold_on_canceled s →
  o ∈ orders s → o_Status o = "canceled" ∨ o_Status o = "expired" →
  o ∈ orders (foldl perform s actions).
Proof.
  revert s. induction actions as [|a rest IH]; intros s Hwf Hno Hin Hc; simpl;
    [done|].
  apply IH; [by apply orders_wf_perform|by apply no_hold_perform| |done].
  by apply closed_row_kept.
Qed.

Lemma closed_orders_stay_closed_witness :
  mkOrder 1 7 (Some 7) "canceled" 20 (1000 + 12 * Hour) 1000 1500
    ∈ orders (foldl perform canceled1
                [ActRequest (ReqCreate no_fault 8 2000 2001);
                 ActRequest (ReqCancel no_fault 7 1 2500);
                 ActRequest (ReqSweep no_fault (3000 + 24 * Hour));
                 ActClean no_fault_aux 4000 4000 4000]).
Proof.
  apply (closed_orders_stay_closed
           [ActRequest (ReqCreate no_fault 8 2000 2001);
            ActRequest (ReqCancel no_fault 7 1 2500);
            ActRequest (ReqSweep no_fault (3000 + 24 * Hour));
            ActClean no_fault_aux 4000 4000 4000] canceled1).
  - split_and!.
    + vm_compute. apply NoDup_singleton.
    + apply (proj1 (Forall_forall (λ o, o_ID o < next_order_id canceled1) _)).
      vm_compute. repeat constructor.
    + intros r Hin. vm_compute in Hin. inversion Hin.
  - intros r o Hin. vm_compute in Hin. inversion Hin.
  - vm_compute. left.
  - left. reflexivity.
Defined.

(** ** Credit only goes down *)

Lemma duration_of_mono h h' : h' ≤ h → h ≤ 3 → duration_of h' ≤ duration_of h.
Proof.
  intros Hle H3. unfold duration_of, Hour. repeat case_decide; lia.
Qed.

Lemma users_perform a s :
  ∀ u h, users s !! u = Some h →
         ∃ h', users (perform s a) !! u = Some h' ∧ h' ≤ h.
Proof.
  intros u h Hu.
  destruct a as [[fails userID now resNow|fails userID orderID now|fails now]
                |fails now0 now1 now2]; simpl.
  - exists h. split; [|lia].
    destruct (CreateOrder_created_or_same fails userID now resNow s)
      as [(id&e&Hr)|Hsame].
    + destruct (CreateOrder fails userID now resNow s) as [r s'] eqn:E.
      simpl in *. subst r. apply CreateOrder_created in E.
      destruct E as (total&h0&_&_&_&_&_&_&_&_&_&_&Hus&_). by rewrite Hus.
    + destruct Hsame as (_&_&Hus&_). by rewrite Hus.
  - exists h. split; [|lia].
    destruct (CancelOrder_canceled_or_same fails userID orderID now s)
      as [Hr|[_ Hsame]].
    + destruct (CancelOrder fails userID orderID now s) as [r s'] eqn:E.
      simpl in *. subst r. apply CancelOrder_canceled in E.
      destruct E as (order&_&_&_&_&_&_&_&Hus&_). by rewrite Hus.
    + destruct Hsame as (_&_&Hus&_). by rewrite Hus.
  - apply (sweep_keeps (λ s', ∃ h', users s' !! u = Some h' ∧ h' ≤ h));
      [| | |exists h; split; [done|lia]].
    + by intros s' oid _.
    + intros s' uid (h'&Hh'&Hle). simpl. rewrite lookup_alter.
      case_decide as Heq.
      * subst uid. rewrite Hh'. simpl. exists (h' - 1). split; [done|lia].
      * by exists h'.
    + intros s' i oid (h'&Hh'&Hle).
      destruct (DeleteStockReservationAndReturn_cases fails i oid s')
        as [[_ Hus] _]. exists h'. by rewrite Hus.
  - exists h. split; [|lia].
    destruct (Clean_same_tables fails now0 now1 now2 s) as (_&_&Hus&_).
    by rewrite Hus.
Qed.

(** X21: credit is never given back.  Under any sequence of createOrder,
    cancelOrder, sweep and clean calls a user's stored credit never rises,
    and for a user who starts at 3 or below the deadline createOrder grants
    never gets longer. *)
Theorem credit_only_goes_down actions s u h :
  users s !! u = Some h →
  ∃ h', users (foldl perform s actions) !! u = Some h' ∧ h' ≤ h ∧
        (h ≤ 3 → duration_of h' ≤ duration_of h).
Proof.
  intros Hu.
  cut (∃ h', users (foldl perform s actions) !! u = Some h' ∧ h' ≤ h).
  { intros (h'&Hh'&Hle). exists h'. split_and!; [done|done|].
    intros H3. by apply duration_of_mono. }
  revert s h Hu. induction actions as [|a rest IH]; intros s h Hu; simpl.
  - exists h. split; [done|lia].
  - destruct (users_perform a s u h Hu) as (h1&Hh1&Hle1).
    destruct (IH _ _ Hh1) as (h'&Hh'&Hle'). exists h'. split; [done|lia].
Qed.

Lemma credit_only_goes_down_witness :
  ∃ h', users (foldl perform (booked2 10)
                 [ActRequest (ReqSweep no_fault (3000 + 24 * Hour));
                  ActRequest (ReqCreate no_fault 7 90000 90001)]) !! 7 = Some h' ∧
        h' ≤ 2 ∧ (2 ≤ 3 → duration_of h' ≤ duration_of 2).
Proof.
  apply (credit_only_goes_down
           [ActRequest (ReqSweep no_fault (3000 + 24 * Hour));
            ActRequest (ReqCreate no_fault 7 90000 90001)] (booked2 10) 7 2).
  vm_compute. reflexivity.
Defined.

(** ** Orders and order items are only ever added *)

Lemma audit_perform a s :
  (o_ID <$> orders s) `prefix_of` (o_ID <$> orders (perform s a)) ∧
  order_items s `prefix_of` order_items (perform s a).
Proof.
  destruct a as [[fails userID now resNow|fails userID orderID now|fails now]
                |fails now0 now1 now2]; simpl.
  - destruct (CreateOrder_created_or_same fails userID now resNow s)
      as [(id&e&Hr)|Hsame].
    + destruct (CreateOrder fails userID now resNow s) as [r s'] eqn:E.
      simpl in *. subst r. apply CreateOrder_created in E.
      destruct E as (total&h0&_&_&_&_&_&Ho&Hoi&_). rewrite Ho, Hoi, fmap_app.
      split; by apply prefix_app_r.
    + destruct Hsame as (_&_&_&_&_&Ho&Hoi&_). by rewrite Ho, Hoi.
  - destruct (CancelOrder_canceled_or_same fails userID orderID now s)
      as [Hr|[_ Hsame]].
    + destruct (CancelOrder fails userID orderID now s) as [r s'] eqn:E.
      simpl in *. subst r. apply CancelOrder_canceled in E.
      destruct E as (order&_&_&_&Ho&_&_&_&_&_&_&Hoi).
      by rewrite Ho, Hoi, ids_set_status_at.
    + destruct Hsame as (_&_&_&_&_&Ho&Hoi&_). by rewrite Ho, Hoi.
  - assert ((o_ID <$> orders (snd (CheckAndExpireOrders fails now s)))
              = (o_ID <$> orders s) ∧
            order_items (snd (CheckAndExpireOrders fails now s)) = order_items s)
      as [-> ->]; [|done].
    apply (sweep_keeps
             (λ s', (o_ID <$> orders s') = (o_ID <$> orders s) ∧
                    order_items s' = order_items s) fails now s).
    + intros s' oid _ [Ho Hoi]. simpl. by rewrite ids_set_expired_at.
    + by intros s' uid.
    + intros s' i oid [Ho Hoi].
      destruct (DeleteStockReservationAndReturn_cases fails i oid s')
        as [[Ho' _] [Hsame|(_&_&_&_&_&Hoi')]].
      * destruct Hsame as (_&_&_&_&_&_&Hoi'&_). by rewrite Ho', Hoi'.
      * by rewrite Ho', Hoi'.
    + done.
  - destruct (Clean_same_tables fails now0 now1 now2 s) as (_&_&_&_&_&Ho&Hoi&_).
    by rewrite Ho, Hoi.
Qed.

(** X23: orders are kept for audit.  No sequence of createOrder,
    cancelOrder, sweep and clean calls deletes or reorders an order row or
    changes its id, and none deletes or changes an order item: the old rows
    are a prefix of the new ones. *)
Theorem orders_are_append_only actions s :
  (o_ID <$> orders s) `prefix_of` (o_ID <$> orders (foldl perform s actions)) ∧
  order_items s `prefix_of` order_items (foldl perform s actions).
Proof.
  revert s. induction actions as [|a rest IH]; intros s; simpl; [done|].
  destruct (audit_perform a s) as [H1 H2].
  destruct (IH (perform s a)) as [H3 H4].
  split; etrans; eauto.
Qed.

Lemma orders_are_append_only_witness :
  (o_ID <$> orders (booked2 10))
    `prefix_of` (o_ID <$> orders (foldl perform (booked2 10)
                            [ActRequest (ReqCancel no_fault 7 1 2500);
                             ActClean no_fault_aux 4000 4000 4000])).
Proof.
  exact (proj1 (orders_are_append_only
                  [ActRequest (ReqCancel no_fault 7 1 2500);
                   ActClean no_fault_aux 4000 4000 4000] (booked2 10))).
Defined.

(** ** What a cancel and a sweep leave alone *)

(** X22: cancelOrder touches one order only.  Whatever store errors it
    meets, it changes no credit, no cart, no cart line and no order item,
    and it leaves in place every order row, reservation and detail row that
    does not belong to the order it was asked to cancel. *)
Theorem CancelOrder_touches_one_order fails userID orderID now s :
  let s' := snd (CancelOrder fails userID orderID now s) in
  users s' = users s ∧ carts s' = carts s ∧ cart_items s' = cart_items s ∧
  order_items s' = order_items s ∧
  (∀ o, o ∈ orders s → o_ID o ≠ orderID → o ∈ orders s') ∧
  (∀ r, r ∈ temp_stock_reservations s → r_OrderID r ≠ orderID →
        r ∈ temp_stock_reservations s') ∧
  (∀ d, d ∈ temp_stock_details s →
        d_TempReservationID d ∉ reservation_ids_of orderID s →
        d ∈ temp_stock_details s').
Proof.
  intros s'. subst s'.
  destruct (CancelOrder_canceled_or_same fails userID orderID now s)
    as [Hr|[_ Hsame]].
  - destruct (CancelOrder fails userID orderID now s) as [r s'] eqn:E.
    simpl in *. subst r. apply CancelOrder_canceled in E.
    destruct E as (order&_&_&_&Ho&Hres&Hd&_&Hu&Hc&Hci&Hoi).
    split_and!; try done.
    + intros o Hin Hne. rewrite Ho. apply list_elem_of_fmap. exists o.
      split; [|done]. unfold set_status_at. by rewrite decide_False.
    + intros r Hin Hne. rewrite Hres. by apply list_elem_of_filter.
    + intros d Hin Hne. rewrite Hd. by apply list_elem_of_filter.
  - destruct Hsame as (_&_&Hu&Hc&Hci&Ho&Hoi&Hres&Hd).
    rewrite Hu, Hc, Hci, Ho, Hoi, Hres, Hd. by split_and!.
Qed.

Lemma expire_loop_keeps_pairs (P : DB → Prop) fails expiredOrders :
  (∀ s p, p ∈ expiredOrders → P s →
          P (set_orders (fmap (set_expired_at p.1)) s)) →
  (∀ s p, p ∈ expiredOrders → P s →
          P (set_users (alter (λ h, h - 1) p.2) s)) →
  (∀ s i oid, P s → P (DeleteStockReservationAndReturn fails i oid s)) →
  ∀ i s, P s → P (snd (expire_loop fails i expiredOrders s)).
Proof.
  intros Hexp Hdec Hrev. revert Hexp Hdec.
  induction expiredOrders as [|[orderID userID] rest IH]; intros Hexp Hdec i s HP;
    simpl; [done|].
  assert ((orderID, userID) ∈ (orderID, userID) :: rest) as Hin by (by left).
  destruct (fails (UpdExpired i)); [done|].
  destruct (fails (DecHearts i)); simpl; [by apply (Hexp _ _ Hin)|].
  apply IH.
  - intros s' p Hp. apply Hexp. by right.
  - intros s' p Hp. apply Hdec. by right.
  - apply Hrev. apply (Hdec _ _ Hin). by apply (Hexp _ _ Hin).
Qed.

(** X24: the sweep touches only what is overdue.  Whatever store errors it
    meets, in a store with distinct order ids it leaves every order that is
    not overdue exactly as it was, changes the credit of no user who owns no
    overdue order, and changes no cart, cart line or order item. *)
Theorem sweep_touches_only_overdue fails now s :
  orders_wf s →
  let s' := snd (CheckAndExpireOrders fails now s) in
  (∀ o, o ∈ orders s → ¬ is_overdue now o → o ∈ orders s') ∧
  (∀ u, (∀ o, o ∈ orders s → is_overdue now o → o_UserID o ≠ u) →
        users s' !! u = users s !! u) ∧
  carts s' = carts s ∧ cart_items s' = cart_items s ∧
  order_items s' = order_items s.
Proof.
  intros (Hnd&_&_) s'. subst s'.
  set (P := λ s' : DB,
    (∀ o, o ∈ orders s → ¬ is_overdue now o → o ∈ orders s') ∧
    (∀ u, (∀ o, o ∈ orders s → is_overdue now o → o_UserID o ≠ u) →
          users s' !! u = users s !! u) ∧
    carts s' = carts s ∧ cart_items s' = cart_items s ∧
    order_items s' = order_items s).
  assert (P s) as HP0 by (unfold P; by split_and!).
  change (P (snd (CheckAndExpireOrders fails now s))).
  unfold CheckAndExpireOrders.
  destruct (fails SelExpired); [done|].
  destruct (scan_rows _ _ _ _ _) as [l|] eqn:Hscan; [|done].
  apply scan_rows_Some in Hscan. subst l.
  destruct (fails ExpiredErr); [done|].
  apply expire_loop_keeps_pairs; [| | |done].
  - intros s' p (o2&->&Ho2)%list_elem_of_fmap (Ho&Hrest).
    apply list_elem_of_filter in Ho2 as [Hover Ho2].
    split; [|done]. intros o Hin Hnot. simpl.
    apply list_elem_of_fmap. exists o. split; [|by apply Ho].
    unfold set_expired_at. case_decide as Hid; [|done].
    exfalso. apply Hnot.
    by rewrite (NoDup_ids_eq (orders s) o o2 Hnd Hin Ho2 Hid).
  - intros s' p (o2&->&Ho2)%list_elem_of_fmap (Ho&Hu&Hrest).
    apply list_elem_of_filter in Ho2 as [Hover Ho2].
    split; [done|]. split; [|done]. intros u Hnone. simpl.
    rewrite lookup_alter_ne; [by apply Hu|]. by apply Hnone.
  - intros s' i oid (Ho&Hu&Hc&Hci&Hoi).
    destruct (DeleteStockReservationAndReturn_cases fails i oid s')
      as [[Ho' Hu'] [Hsame|(_&_&_&Hc'&Hci'&Hoi')]].
    + destruct Hsame as (_&_&_&Hc'&Hci'&_&Hoi'&_).
      unfold P. rewrite Ho', Hu', Hc', Hci', Hoi'. by split_and!.
    + unfold P. rewrite Ho', Hu', Hc', Hci', Hoi'. by split_and!.
Qed.

Lemma sweep_touches_only_overdue_witness :
  users (snd (CheckAndExpireOrders no_fault (1001 + 12 * Hour) (booked2 10))) !! 8
  = users (booked2 10) !! 8.
Proof.
  destruct (sweep_touches_only_overdue no_fault (1001 + 12 * Hour) (booked2 10))
    as (_&Hu&_).
  - split_and!.
    + vm_compute. apply NoDup_cons_2; [|apply NoDup_singleton].
      intros Hin. apply list_elem_of_singleton in Hin. discriminate Hin.
    + apply (proj1 (Forall_forall (λ o, o_ID o < next_order_id (booked2 10)) _)).
      vm_compute. repeat constructor.
    + apply (proj1 (Forall_forall
                      (λ r, r_OrderID r < next_order_id (booked2 10)) _)).
      vm_compute. repeat constructor.
  - apply Hu.
    apply (proj1 (Forall_forall
                    (λ o, is_overdue (1001 + 12 * Hour) o → o_UserID o ≠ 8) _)).
    set (l := orders (booked2 10)). vm_compute in l. subst l.
    repeat constructor.
    + intros _. discriminate.
    + intros [_ H]. revert H. vm_compute. discriminate.
Defined.

(** X25: releasing an order that holds no reservation is a no-op, not an
    error: the sweep's per-order transaction leaves every table as it was,
    whatever store errors it meets. *)
Theorem revert_without_reservation fails i orderID s :
  (∀ r, r ∈ temp_stock_reservations s → r_OrderID r ≠ orderID) →
  same_tables (DeleteStockReservationAndReturn fails i orderID s) s.
Proof.
  intros Hnone.
  destruct (DeleteStockReservationAndReturn_cases fails i orderID s)
    as [[Ho Hu] [Hsame|(Hres&Hd&[Hp Hv]&Hc&Hci&Hoi)]]; [done|].
  assert (revert_rows orderID s = []) as Hrows.
  { unfold revert_rows. apply bind_all_nil. intros d _.
    rewrite filter_none; [done|]. intros r Hr [_ Hor]. by apply (Hnone r). }
  assert (reservation_ids_of orderID s = []) as Hids.
  { unfold reservation_ids_of. by rewrite filter_none. }
  rewrite Hrows in Hp, Hv. simpl in Hp, Hv.
  rewrite Hids in Hd.
  rewrite filter_all in Hres by done.
  rewrite filter_all in Hd by (intros d _; apply not_elem_of_nil).
  by split_and!.
Qed.

Lemma revert_without_reservation_witness :
  same_tables (DeleteStockReservationAndReturn no_fault 0 5 (booked2 10))
              (booked2 10).
Proof.
  apply (revert_without_reservation no_fault 0 5 (booked2 10)).
  apply (proj1 (Forall_forall (λ r, r_OrderID r ≠ 5) _)).
  vm_compute. repeat constructor; discriminate.
Defined.

(** ** Stock stays non-negative, the clean included *)

Lemma ledger_inv_Clean fails now0 now1 now2 s :
  ledger_inv s → ledger_inv (snd (CleanExpiredReservations fails now0 now1 now2 s)).
Proof.
  intros Hinv. apply (ledger_inv_same_tables _ s); [|done]. apply Clean_same_tables.
Qed.

(** X26: no stock column ever goes negative.  If no stock column and no
    recorded quantity is negative, this stays so under every sequence of
    createOrder, cancelOrder, sweep and clean calls, whatever store errors
    they meet. *)
Theorem stock_stays_nonnegative actions s :
  ledger_inv s → ledger_inv (foldl perform s actions).
Proof.
  revert s. induction actions as [|a rest IH]; intros s Hinv; simpl; [done|].
  apply IH. destruct a as [[]|]; simpl.
  - by apply ledger_inv_CreateOrder.
  - by apply ledger_inv_CancelOrder.
  - by apply ledger_inv_sweep.
  - by apply ledger_inv_Clean.
Qed.

Lemma stock_stays_nonnegative_witness :
  ledger_inv (foldl perform (shop2 4)
                [ActRequest (ReqCreate no_fault 7 1000 1001);
                 ActRequest (ReqCreate no_fault 8 2000 2001);
                 ActClean no_fault_aux 4000 4000 4000;
                 ActRequest (ReqCancel no_fault 7 1 5000)]).
Proof.
  apply (stock_stays_nonnegative
           [ActRequest (ReqCreate no_fault 7 1000 1001);
            ActRequest (ReqCreate no_fault 8 2000 2001);
            ActClean no_fault_aux 4000 4000 4000;
            ActRequest (ReqCancel no_fault 7 1 5000)] (shop2 4)).
  unfold ledger_inv, stock_nonneg, quantities_nonneg, shop2.
  cbn [products product_variants cart_items order_items temp_stock_details].
  split; [split|split_and!].
  - intros p st H. apply lookup_singleton_Some in H as [_ <-]. lia.
  - intros v st H. by rewrite lookup_empty in H.
  - repeat constructor; cbn [ci_Quantity]; lia.
  - constructor.
  - constructor.
Defined.

(** ** The order total *)

Lemma sum_totals_order_items orderID (items : list OrderItemModel) :
  foldr Z.add 0 (TotalPrice <$> (order_item_of orderID <$> items))
  = foldr Z.add 0 (TotalPrice <$> items).
Proof. induction items as [|item rest IH]; simpl in *; [done|by f_equal]. Qed.

Lemma sum_totals_cart (rows : list CartItemModel) :
  foldr Z.add 0 (TotalPrice <$> (item_of_cart <$> rows))
  = foldr Z.add 0 (ci_TotalPrice <$> rows).
Proof. induction rows as [|row rest IH]; simpl in *; [done|by f_equal]. Qed.

(** X27: if the cart's stored total is the sum of its lines' totals when
    createOrder runs (and the new order id is carried by no older order
    item), the order row it writes has as its total the sum of the totals of
    the order items written for it. *)
Theorem order_total_matches_items fails userID now resNow s id e s' :
  CreateOrder fails userID now resNow s = (OrderCreated id e, s') →
  (∀ it, it ∈ order_items s → OrderID it ≠ next_order_id s) →
  carts s !! userID
    = Some (foldr Z.add 0 (ci_TotalPrice <$> cart_rows userID s)) →
  ∃ o, o ∈ orders s' ∧ o_ID o = id ∧ o_Status o = "waitToBuy" ∧
       o_TotalPrice o
       = foldr Z.add 0
           (TotalPrice <$> filter (λ it, OrderID it = id) (order_items s')).
Proof.
  intros E Hfresh Hcart. apply CreateOrder_created in E.
  destruct E as (total&h&Hc&_&_&Hid&_&Ho&Hoi&_).
  rewrite Hcart in Hc. injection Hc as <-.
  eexists. split; [rewrite Ho; apply elem_of_app; right; by left|].
  simpl. split_and!; [done|done|].
  rewrite Hoi, filter_app, filter_order_item_of.
  rewrite (filter_none (λ it, OrderID it = id))
    by (intros it Hin; subst id; by apply Hfresh).
  simpl. by rewrite sum_totals_order_items, sum_totals_cart.
Qed.

Lemma order_total_matches_items_witness :
  ∃ o, o ∈ orders (snd (CreateOrder no_fault 7 1000 1001 (shop 10 2 5))) ∧
       o_ID o = 1 ∧ o_Status o = "waitToBuy" ∧
       o_TotalPrice o
       = foldr Z.add 0
           (TotalPrice <$> filter (λ it, OrderID it = 1)
              (order_items (snd (CreateOrder no_fault 7 1000 1001 (shop 10 2 5))))).
Proof.
  apply (order_total_matches_items no_fault 7 1000 1001 (shop 10 2 5) 1
           (1000 + 12 * Hour)).
  - vm_compute. reflexivity.
  - intros it Hin. vm_compute in Hin. inversion Hin.
  - vm_compute. reflexivity.
Defined.
